(** * snorkel.classification.data: [split_data] and [DictDataset]

    A shallow embedding of [src/snorkel/classification/data.py].

    - Python [int] is [Z]; container lengths are [nat].
    - Python [float] is IEEE 754 binary64, taken from the Standard
      Library's executable specification [spec_float] at precision 53 and
      exponent bound 1024; [sum] over floats adds from the left.
    - Exceptions are values of [exn]; a function that can raise returns
      a [result].
    - The process-wide generator of module [random] is threaded through
      [split_data] as a state; [random.seed] and [random.shuffle] are
      parameters, of which the proofs use only that a shuffle rearranges
      its list.
    - Collections are lists of rows, tagged with their Python type;
      [np.cumsum] is taken over [Z]. *)

From Stdlib Require Import String.
From Stdlib Require Import ZArith List Bool Lia Permutation Sorted.
From Stdlib Require Import Floats.SpecFloat.
Import ListNotations.
Open Scope Z_scope.

(** ** Exceptions *)

(** The [ValueError]s this file can raise, by the format string that
    builds their message. *)
Inductive value_error :=
| SplitCountsSum (n s : Z)         (* "Provided split counts must sum to n ({n}), not {s}." *)
| SplitFractionsSum (s : spec_float) (* "Split fractions must sum to 1.0, not {s}." *)
| SplitsMixed                      (* "Splits must contain all ints or all floats." *)
| NaNToInteger                     (* int(nan): "cannot convert float NaN to integer" *)
| LabelNotTensor (msg : string).   (* "Label {name} should be torch.Tensor, not {type}." *)

Inductive exn :=
| ValueError (e : value_error)
| IndexError
| ZeroDivisionError
| OverflowError
| AssertionError
| Exception_ (msg : string).

Inductive result (A : Type) :=
| Ok (a : A)
| Raise (e : exn).
Arguments Ok {A} a.
Arguments Raise {A} e.

Definition bind {A B} (r : result A) (k : A -> result B) : result B :=
  match r with
  | Ok a => k a
  | Raise e => Raise e
  end.

Notation "'do' x <- r ; k" := (bind r (fun x => k))
  (at level 10, x name, r at level 100, k at level 200).

(** A list comprehension whose body can raise: elements are evaluated left
    to right and the first exception escapes. *)
Fixpoint mapM {A B} (f : A -> result B) (l : list A) : result (list B) :=
  match l with
  | [] => Ok []
  | a :: l' => do b <- f a; do bs <- mapM f l'; Ok (b :: bs)
  end.

(** ** Python floats *)

Module PyFloat.

Definition prec : Z := 53.
Definition emax : Z := 1024.

Definition float := spec_float.

Definition is_finite (x : float) : bool :=
    match x with
    | S754_zero _ | S754_finite _ _ _ => true
    | S754_infinity _ | S754_nan => false
    end.

  (** Sign bit clear, or a zero of either sign. *)
Definition is_nonneg (x : float) : bool :=
    match x with
    | S754_zero _ => true
    | S754_finite s _ _ => negb s
    | S754_infinity s => negb s
    | S754_nan => false
    end.

Definition add : float -> float -> float := SFadd prec emax.
Definition mul : float -> float -> float := SFmul prec emax.
Definition eqb : float -> float -> bool := SFeqb.

Definition one : float := S754_finite false 4503599627370496 (-52).

  (** [float(z)]: the nearest double, ties to even; [OverflowError] when
      [z] is too large. *)
Definition of_int (z : Z) : result float :=
    let f := binary_normalize prec emax z 0 false in
    if is_finite f then Ok f else Raise OverflowError.

  (** An integer as an exact, unrounded binary value. *)
Definition exact_int (z : Z) : float :=
    match z with
    | Z0 => S754_zero false
    | Zpos p => S754_finite false p 0
    | Zneg p => S754_finite true p 0
    end.

  (** [a / b] on two Python ints: the correctly rounded quotient. *)
Definition int_truediv (a b : Z) : result float :=
    if b =? 0 then Raise ZeroDivisionError
    else
      let f := SFdiv prec emax (exact_int a) (exact_int b) in
      if is_finite f then Ok f else Raise OverflowError.

  (** [n * frac] with [n] an int and [frac] a float: [n] is converted
      first. *)
Definition int_mul (n : Z) (frac : float) : result float :=
    do x <- of_int n; Ok (mul x frac).

  (** The integer nearest to [m * 2^e], ties to the even one. *)
Definition rint_pos (m : positive) (e : Z) : Z :=
    if 0 <=? e then Z.pos m * 2 ^ e
    else
      let d := 2 ^ (- e) in
      let q := Z.pos m / d in
      let r := Z.pos m mod d in
      match 2 * r ?= d with
      | Lt => q
      | Gt => q + 1
      | Eq => if Z.even q then q else q + 1
      end.

  (** [int(np.round(x))]. [np.round] takes a double to the nearest
      integral double, ties to even, which is exact on doubles, and [int]
      reads that integer off; [int] raises [ValueError] on NaN and
      [OverflowError] on an infinity. *)
Definition round_to_int (x : float) : result Z :=
    match x with
    | S754_nan => Raise (ValueError NaNToInteger)
    | S754_infinity _ => Raise OverflowError
    | S754_zero _ => Ok 0
    | S754_finite s m e => Ok (cond_Zopp s (rint_pos m e))
    end.

End PyFloat.

(** ** Python values and containers *)

(** An entry of [splits], by what [isinstance] answers for it: an [int]
    (a [bool] is one too, with value 0 or 1), a [float], or anything
    else. *)
Inductive pyval :=
| PyInt (z : Z)
| PyFloatV (f : PyFloat.float)
| PyOtherV.

(** [Some] of the values when every entry is an [int]: the test
    [all(isinstance(x, int) for x in splits)]. *)
Fixpoint all_ints (l : list pyval) : option (list Z) :=
  match l with
  | [] => Some []
  | PyInt z :: l' => option_map (cons z) (all_ints l')
  | _ :: _ => None
  end.

Fixpoint all_floats (l : list pyval) : option (list PyFloat.float) :=
  match l with
  | [] => Some []
  | PyFloatV f :: l' => option_map (cons f) (all_floats l')
  | _ :: _ => None
  end.

(** [sum] over ints. *)
Definition sum_ints (l : list Z) : Z := fold_left Z.add l 0.

(** [sum] over floats: it starts from the int [0], which the first
    addition converts to [0.0], and adds from the left. *)
Definition sum_floats (l : list PyFloat.float) : PyFloat.float :=
  fold_left PyFloat.add l (S754_zero false).

(** [np.cumsum] over ints. Running sums are taken in [Z], which is what
    numpy computes while the counts and their running sums fit in a
    signed 64-bit integer. A specification without a negative entry
    keeps every count between minus the pool size and the pool size.
    With a negative entry the counts can leave the 64-bit range, where
    numpy wraps around or changes the element type; the model does not
    follow it there, and the properties that depend on the running sums
    assume a specification without a negative entry. *)
Fixpoint cumsum_from (acc : Z) (l : list Z) : list Z :=
  match l with
  | [] => []
  | x :: l' => (acc + x) :: cumsum_from (acc + x) l'
  end.

Definition cumsum (l : list Z) : list Z := cumsum_from 0 l.

(** [np.arange(n)], [range(n)]. *)
Definition arange (n : nat) : list Z := map Z.of_nat (seq 0 n).

(** [enumerate(l)]. *)
Definition enumerate {A} (l : list A) : list (Z * A) :=
  combine (arange (length l)) l.

(** One bound of a slice [l[a:b]] on a sequence of length [len]: a
    negative bound counts from the end, and both are clamped. *)
Definition slice_bound (len i : Z) : Z :=
  if i <? 0 then Z.max (i + len) 0 else Z.min i len.

(** [l[a:b]]. *)
Definition py_slice {A} (l : list A) (a b : Z) : list A :=
  let len := Z.of_nat (length l) in
  let lo := slice_bound len a in
  let hi := slice_bound len b in
  firstn (Z.to_nat (hi - lo)) (skipn (Z.to_nat lo) l).

(** The indexable kinds that are not plain sequences. A sparse matrix
    comes in a format: [type_repr] is how its type prints, and
    [subscriptable] tells whether the format defines indexing (CSR, CSC,
    LIL and DOK do; COO, BSR and DIA do not, and [data[indices]] raises
    [TypeError] on them). Arrays and tensors have at least one axis. *)
Inductive array_kind :=
| ndarray
| spmatrix (type_repr : string) (subscriptable : bool)
| tensor.

(** Whether [data[indices]] is defined for the kind. *)
Definition subscriptable_kind (k : array_kind) : bool :=
  match k with
  | spmatrix _ false => false
  | _ => true
  end.

(** An input collection. Rows of arrays, matrices and tensors are the
    elements along their first axis. [PyOther] is any other object:
    [type_repr] is how [type(data)] prints, [len] what [len(data)]
    returns when the object has a length. *)
Inductive ArrayLike (A : Type) :=
| PyList (xs : list A)
| PyTuple (xs : list A)
| PyArray (k : array_kind) (rows : list A)
| PyOther (type_repr : string) (len : option nat).
Arguments PyList {A} xs.
Arguments PyTuple {A} xs.
Arguments PyArray {A} k rows.
Arguments PyOther {A} type_repr len.

(** [data[i]] for one integer index on the first axis of a list, an array
    or a tensor: a negative index counts from the end, and an index out
    of range raises [IndexError]. The index is one that fits in a signed
    64-bit integer, as every position of a collection in memory does;
    beyond that range the containers differ (a list raises [IndexError],
    an array [OverflowError], a tensor [ValueError]) and the properties
    below that take an index from the caller assume the range. *)
Definition array_getitem {A} (rows : list A) (i : Z) : result A :=
  let len := Z.of_nat (length rows) in
  let j := if i <? 0 then i + len else i in
  if (0 <=? j) && (j <? len) then
    match nth_error rows (Z.to_nat j) with
    | Some r => Ok r
    | None => Raise IndexError
    end
  else Raise IndexError.

(** What [split_data] returns: the index lists, the slices of the only
    input, or one list of slices per input. *)
Inductive split_output (A : Type) :=
| Assignments (a : list (list Z))
| Slices (s : list (ArrayLike A))
| PerInput (o : list (list (ArrayLike A))).
Arguments Assignments {A} a.
Arguments Slices {A} s.
Arguments PerInput {A} o.

(** ** [split_data] *)

(** [int(np.round(n * frac))]. *)
Definition round_count (n : Z) (frac : PyFloat.float) : result Z :=
  do x <- PyFloat.int_mul n frac; PyFloat.round_to_int x.

(** The helper [fractions_to_counts]: one count per fraction by
    [int(np.round(n * frac))], then [counts[-1] = n - sum(counts[:-1])],
    which raises [IndexError] on an empty list. *)
Definition fractions_to_counts (fracs : list PyFloat.float) (n : Z)
  : result (list Z) :=
  do counts <- mapM (round_count n) fracs;
  match counts with
  | [] => Raise IndexError
  | _ :: _ => Ok (removelast counts ++ [n - sum_ints (removelast counts)])
  end.

Section Slicing.
Context {A : Type}.

  (** [i in set(indices)]. *)
Definition in_set (i : Z) (indices : list Z) : bool :=
    existsb (Z.eqb i) indices.

  (** The helper [slice_data]. A list or a tuple is filtered by position
      and comes back as a list; anything else is indexed with the index
      list, and a [TypeError] there (a sparse matrix of a format without
      indexing, an object of another type) is raised again as an
      [Exception] that names the type. *)
Definition slice_data (data : ArrayLike A) (indices : list Z)
    : result (ArrayLike A) :=
    match data with
    | PyList xs | PyTuple xs =>
        Ok (PyList (map snd (filter (fun '(i, _) => in_set i indices)
                                    (enumerate xs))))
    | PyArray k rows =>
        match k with
        | spmatrix ty false =>
            Raise (Exception_
                     ("split_data() currently only accepts inputs of type tuple, list, np.ndarray, scipy.sparse, or torch.Tensor; not "
                        ++ ty))
        | _ => do rs <- mapM (array_getitem rows) indices; Ok (PyArray k rs)
        end
    | PyOther ty _ =>
        Raise (Exception_
                 ("split_data() currently only accepts inputs of type tuple, list, np.ndarray, scipy.sparse, or torch.Tensor; not "
                    ++ ty))
    end.

  (** [n = len(inputs[0])], with [inputs[0].shape[0]] after the assertion
      when [len] raises [TypeError]. *)
Definition sample_count (inputs : list (ArrayLike A)) : result nat :=
    match inputs with
    | [] => Raise IndexError
    | PyList xs :: _ | PyTuple xs :: _ => Ok (length xs)
    | PyArray _ rows :: _ => Ok (length rows)
    | PyOther _ (Some n) :: _ => Ok n
    | PyOther _ None :: _ => Raise AssertionError
    end.
End Slicing.

(** Lines 178-192: the check of [splits] against [n] and the conversion
    to fractions. *)
Definition resolve_fracs (splits : list pyval) (n : Z)
  : result (list PyFloat.float) :=
  match all_ints splits with
  | Some counts =>
      if negb (sum_ints counts =? n)
      then Raise (ValueError (SplitCountsSum n (sum_ints counts)))
      else mapM (fun count => PyFloat.int_truediv count n) counts
  | None =>
      match all_floats splits with
      | Some fracs =>
          if negb (PyFloat.eqb (sum_floats fracs) PyFloat.one)
          then Raise (ValueError (SplitFractionsSum (sum_floats fracs)))
          else Ok fracs
      | None => Raise (ValueError SplitsMixed)
      end
  end.

(** [pools_dict[val].append(i)] on a [defaultdict(list)]: a dict keeps its
    keys in the order of their first insertion. *)
Fixpoint dict_append (d : list (Z * list Z)) (val i : Z)
  : list (Z * list Z) :=
  match d with
  | [] => [(val, [i])]
  | (k, v) :: d' =>
      if k =? val then (k, v ++ [i]) :: d'
      else (k, v) :: dict_append d' val i
  end.

(** Lines 198-201: one pool per value of [stratify_by]. *)
Definition make_pools (stratify_by : list Z) : list (list Z) :=
  map snd (fold_left (fun d '(i, val) => dict_append d val i)
                     (enumerate stratify_by) []).

(** Lines 212-213: [assignments[i].extend(pool[cum_counts[i] :
    cum_counts[i + 1]])] for [i] in [range(num_splits)]. *)
Definition extend_assignments (assignments : list (list Z))
    (pool : list Z) (cum_counts : list Z) : list (list Z) :=
  map (fun '(i, a) =>
         a ++ py_slice pool (nth i cum_counts 0) (nth (S i) cum_counts 0))
      (combine (seq 0 (length assignments)) assignments).

Section SplitData.
Context {A : Type}.

  (** The state of the process-wide generator of module [random], what
      [random.seed] makes of a seed, and [random.shuffle], which
      rearranges a list in place and advances the generator. *)
Variable rng : Type.
Variable seed_t : Type.
Variable random_seed : seed_t -> rng.
Variable random_shuffle : list Z -> rng -> list Z * rng.

  (** Lines 205-213: the loop over the pools. *)
Fixpoint assign_pools (do_shuffle : bool) (fracs : list PyFloat.float)
      (pools : list (list Z)) (assignments : list (list Z)) (g : rng)
    : result (list (list Z)) * rng :=
    match pools with
    | [] => (Ok assignments, g)
    | pool :: pools' =>
        let '(pool, g) :=
          if do_shuffle then random_shuffle pool g else (pool, g) in
        match fractions_to_counts fracs (Z.of_nat (length pool)) with
        | Raise e => (Raise e, g)
        | Ok counts =>
            let cum_counts := cumsum (0 :: counts) in
            assign_pools do_shuffle fracs pools'
                         (extend_assignments assignments pool cum_counts) g
        end
    end.

Definition is_some {B} (o : option B) : bool :=
    match o with Some _ => true | None => false end.

Definition split_data (inputs : list (ArrayLike A)) (splits : list pyval)
      (shuffle : bool) (stratify_by : option (list Z)) (index_only : bool)
      (seed : option seed_t) (g : rng)
    : result (split_output A) * rng :=
    let g := match seed with Some s => random_seed s | None => g end in
    match sample_count inputs with
    | Raise e => (Raise e, g)
    | Ok n =>
    let num_splits := length splits in
    match resolve_fracs splits (Z.of_nat n) with
    | Raise e => (Raise e, g)
    | Ok fracs =>
    let pools :=
      match stratify_by with
      | None => [arange n]
      | Some labels => make_pools labels
      end in
    let assignments := repeat [] num_splits in
    match assign_pools (shuffle || is_some stratify_by) fracs pools
                       assignments g with
    | (Raise e, g) => (Raise e, g)
    | (Ok assignments, g) =>
    if index_only then (Ok (Assignments assignments), g)
    else
      match mapM (fun data => mapM (slice_data data) assignments) inputs with
      | Raise e => (Raise e, g)
      | Ok [data_splits] => (Ok (Slices data_splits), g)
      | Ok outputs => (Ok (PerInput outputs), g)
      end
    end end end.

End SplitData.
Arguments assign_pools {rng} random_shuffle do_shuffle fracs pools assignments g.
Arguments split_data {A rng seed_t} random_seed random_shuffle
  inputs splits shuffle stratify_by index_only seed g.

(** ** [DictDataset] *)

(** A label value: how [type(label)] prints and what
    [isinstance(label, Tensor)] answers. *)
Record pyobject := { type_repr : string; is_tensor : bool }.

Record DictDataset (X : Type) := {
  name : string;
  split : string;
  X_dict : list (string * X);
  Y_dict : list (string * pyobject)
}.
Arguments name {X} _.
Arguments split {X} _.
Arguments X_dict {X} _.
Arguments Y_dict {X} _.

Definition label_message (name : string) (label : pyobject) : string :=
  "Label " ++ name ++ " should be torch.Tensor, not " ++ type_repr label ++ ".".

(** The loop of [DictDataset.__init__] over [Y_dict.items()]. *)
Fixpoint check_labels (items : list (string * pyobject)) : result unit :=
  match items with
  | [] => Ok tt
  | (name, label) :: items' =>
      if negb (is_tensor label)
      then Raise (ValueError (LabelNotTensor (label_message name label)))
      else check_labels items'
  end.

Definition DictDataset_init {X} (name split : string)
    (X_dict : list (string * X)) (Y_dict : list (string * pyobject))
  : result (DictDataset X) :=
  do _ <- check_labels Y_dict;
  Ok {| name := name; split := split; X_dict := X_dict; Y_dict := Y_dict |}.

(** ** A concrete generator

    A linear congruential generator and a shuffle by repeated draws, to
    run [split_data] on examples. *)
Module Lcg.

Definition rng := Z.

Definition seed (s : Z) : rng := s mod 2 ^ 31.

Definition next (g : rng) : rng := (1103515245 * g + 12345) mod 2 ^ 31.

Definition randbelow (n : nat) (g : rng) : nat * rng :=
    (Z.to_nat (next g mod Z.of_nat n), next g).

  (** Draws [fuel] elements out of [l], each at a random position of what
      is left. *)
Fixpoint draw (fuel : nat) (l : list Z) (g : rng) : list Z * rng :=
    match fuel, l with
    | S fuel', x :: _ =>
        let '(j, g) := randbelow (length l) g in
        let '(rest, g') := draw fuel' (firstn j l ++ skipn (S j) l) g in
        (nth j l x :: rest, g')
    | _, _ => ([], g)
    end.

Definition shuffle (l : list Z) (g : rng) : list Z * rng :=
    draw (length l) l g.

End Lcg.

(** The fractions and counts of the examples. *)
Definition f_half : PyFloat.float := S754_finite false 4503599627370496 (-53).
Definition f_3_16 : PyFloat.float := S754_finite false 6755399441055744 (-55).
Definition f_1_16 : PyFloat.float := S754_finite false 4503599627370496 (-56).

(** ** Notions of the specification *)

(** A split specification that is valid for [n] samples: all ints that
    sum to [n], or all floats that sum to 1.0. *)
Definition valid_spec (splits : list pyval) (n : Z) : Prop :=
  (exists counts, all_ints splits = Some counts /\ sum_ints counts = n) \/
  (exists fracs, all_floats splits = Some fracs /\
                 PyFloat.eqb (sum_floats fracs) PyFloat.one = true).

(** The value of a finite double as a fraction [(num, den)] of integers,
    [den] a power of two. *)
Definition float_ratio (f : PyFloat.float) : Z * Z :=
  match f with
  | S754_finite s m e =>
      if 0 <=? e then (cond_Zopp s (Z.pos m) * 2 ^ e, 1)
      else (cond_Zopp s (Z.pos m), 2 ^ (- e))
  | _ => (0, 1)
  end.

(** Rounding half to even: [c] is an integer nearest to [num / den], and
    the even one when two integers are equally near. *)
Definition nearest_even (num den c : Z) : Prop :=
  2 * Z.abs (c * den - num) <= den /\
  (2 * Z.abs (c * den - num) = den -> Z.even c = true).

(** No entry of the specification is negative. *)
Definition nonneg_entry (v : pyval) : Prop :=
  match v with
  | PyInt z => 0 <= z
  | PyFloatV f => PyFloat.is_nonneg f = true
  | PyOtherV => True
  end.

(** A double of small magnitude: a zero, or a finite double below 4 in
    absolute value whose exponent is not positive. *)
Definition small_fraction (f : PyFloat.float) : bool :=
  match f with
  | S754_zero _ => true
  | S754_finite _ m e => (Z.pos (digits2_pos m) + e <=? 2) && (e <=? 0)
  | _ => false
  end.

(** An entry of a specification as the data model has it: a count that
    is not negative, or a fraction between 0 and 1 (a double in its
    canonical form). *)
Definition fraction_entry (v : pyval) : Prop :=
  match v with
  | PyInt z => 0 <= z
  | PyFloatV f =>
      valid_binary PyFloat.prec PyFloat.emax f = true /\
      PyFloat.is_nonneg f = true /\
      SFleb f PyFloat.one = true
  | PyOtherV => False
  end.

(** A collection that [slice_data] can slice with indices below [n]: a
    list, a tuple, or an array, tensor or matrix of [n] rows, the matrix
    in a format that defines indexing. *)
Definition sliceable {A} (n : nat) (data : ArrayLike A) : Prop :=
  match data with
  | PyList _ | PyTuple _ => True
  | PyArray k rows => subscriptable_kind k = true /\ length rows = n
  | PyOther _ _ => False
  end.

(** The type that the [Exception] of [slice_data] names, for a collection
    on which indexing with a list raises [TypeError]. *)
Definition unsupported_type {A} (data : ArrayLike A) : option string :=
  match data with
  | PyArray (spmatrix ty false) _ => Some ty
  | PyOther ty _ => Some ty
  | _ => None
  end.

(** The consecutive slices [pool[start : start + c]] that the loop takes
    out of a pool, one per count. *)
Fixpoint pool_slices (pool : list Z) (start : Z) (counts : list Z)
  : list (list Z) :=
  match counts with
  | [] => []
  | c :: counts' =>
      py_slice pool start (start + c) :: pool_slices pool (start + c) counts'
  end.

(** The positions of a sequence of length [len] that [indices] names, in
    increasing order. *)
Definition kept_positions (len : nat) (indices : list Z) : list nat :=
  filter (fun p => in_set (Z.of_nat p) indices) (seq 0 len).

(** The dictionaries of the examples. *)
Definition a_tensor : pyobject :=
  {| type_repr := "<class 'torch.Tensor'>"; is_tensor := true |}.
Definition an_int : pyobject :=
  {| type_repr := "<class 'int'>"; is_tensor := false |}.
Definition features : list (string * Z) := [("x"%string, 0)].
Definition labels_ok : list (string * pyobject) := [("task1"%string, a_tensor)].
Definition labels_bad : list (string * pyobject) :=
  [("task1"%string, a_tensor); ("task2"%string, an_int)].

(** ** [DictDataset.__getitem__] and [__len__] *)

Section Fields.
Context {V : Type}.

(** The comprehension [{name: feature[index] for name, feature in
    d.items()}], a feature or a label being the sequence of its items:
    the first index out of range escapes as [IndexError]. *)
Definition index_fields (d : list (string * list V)) (index : Z)
  : result (list (string * V)) :=
  mapM (fun '(name, feature) =>
          do v <- array_getitem feature index; Ok (name, v)) d.

(** [DictDataset.__getitem__]: the features first, then the labels. *)
Definition DictDataset_getitem (X_dict Y_dict : list (string * list V))
    (index : Z)
  : result (list (string * V) * list (string * V)) :=
  do x_dict <- index_fields X_dict index;
  do y_dict <- index_fields Y_dict index;
  Ok (x_dict, y_dict).

(** [DictDataset.__len__]: the length of the first label, and 0 when
    [next] raises [StopIteration] on an empty label dict. *)
Definition DictDataset_len (Y_dict : list (string * list V)) : nat :=
  match Y_dict with
  | [] => 0
  | (_, label) :: _ => length label
  end.

End Fields.

(** ** [collate_dicts] *)

(** A value of a sample, by what [isinstance(value, Tensor)] answers. *)
Inductive pyvalue (T O : Type) :=
| TensorV (t : T)
| OtherV (o : O).
Arguments TensorV {T O} t.
Arguments OtherV {T O} o.

(** A feature of a batch: merged into one tensor, or left as the list of
    its values. *)
Inductive collated (T O M : Type) :=
| Merged (m : M)
| Listed (values : list (pyvalue T O)).
Arguments Merged {T O M} m.
Arguments Listed {T O M} values.

Section Collate.
Context {T O M : Type}.

(** [list_to_tensor] of [snorkel.classification.utils], which pads and
    stacks a list of tensors into one. *)
Variable list_to_tensor : list (pyvalue T O) -> result M.

(** [batch_dict[field_name].append(value)] on a [defaultdict(list)]. *)
Fixpoint list_append (d : list (string * list (pyvalue T O)))
    (field_name : string) (value : pyvalue T O)
  : list (string * list (pyvalue T O)) :=
  match d with
  | [] => [(field_name, [value])]
  | (k, values) :: d' =>
      if String.eqb k field_name then (k, values ++ [value]) :: d'
      else (k, values) :: list_append d' field_name value
  end.

(** The loop over the items of one sample dict. *)
Definition append_items (d : list (string * list (pyvalue T O)))
    (sample : list (string * pyvalue T O))
  : list (string * list (pyvalue T O)) :=
  fold_left (fun d '(field_name, value) => list_append d field_name value)
            sample d.

(** Lines 72-76: the loop over the batch, on [X_batch] and [Y_batch]. *)
Definition gather_batch
    (batch : list (list (string * pyvalue T O) * list (string * pyvalue T O)))
  : list (string * list (pyvalue T O)) * list (string * list (pyvalue T O)) :=
  fold_left (fun '(X_batch, Y_batch) '(x_dict, y_dict) =>
               (append_items X_batch x_dict, append_items Y_batch y_dict))
            batch ([], []).

(** Lines 80-81: a feature is merged when its first value is a tensor. *)
Definition merge_feature (values : list (pyvalue T O))
  : result (collated T O M) :=
  match values with
  | [] => Raise IndexError
  | TensorV _ :: _ => do m <- list_to_tensor values; Ok (Merged m)
  | OtherV _ :: _ => Ok (Listed values)
  end.

Definition collate_dicts
    (batch : list (list (string * pyvalue T O) * list (string * pyvalue T O)))
  : result (list (string * collated T O M) * list (string * M)) :=
  let '(X_batch, Y_batch) := gather_batch batch in
  do X_batch <- mapM (fun '(field_name, values) =>
                        do c <- merge_feature values; Ok (field_name, c))
                     X_batch;
  do Y_batch <- mapM (fun '(label_name, values) =>
                        do m <- list_to_tensor values; Ok (label_name, m))
                     Y_batch;
  Ok (X_batch, Y_batch).

End Collate.
Arguments list_append {T O} d field_name value.
Arguments append_items {T O} d sample.
Arguments gather_batch {T O} batch.

(** ** Grouping by key

    What appending to a [defaultdict(list)] key by key builds: the keys in
    the order in which they are first seen, each with its values in the
    order in which they came. *)

Section Grouping.
Context {K W : Type}.
Variable eqb : K -> K -> bool.

Fixpoint group_append (d : list (K * list W)) (key : K) (w : W)
  : list (K * list W) :=
  match d with
  | [] => [(key, [w])]
  | (k, ws) :: d' =>
      if eqb k key then (k, ws ++ [w]) :: d'
      else (k, ws) :: group_append d' key w
  end.

Definition first_seen (keys : list K) : list K :=
  fold_left (fun seen key =>
               if existsb (fun k => eqb k key) seen then seen
               else seen ++ [key])
            keys [].

Definition values_of (key : K) (pairs : list (K * W)) : list W :=
  map snd (filter (fun p => eqb key (fst p)) pairs).

End Grouping.

(** The positions of [stratify_by] that hold [val], in increasing
    order. *)
Definition positions_of (val : Z) (stratify_by : list Z) : list Z :=
  map fst (filter (fun '(_, v) => val =? v) (enumerate stratify_by)).

(** The rows of a collection, and the slices of an output, one list per
    input. *)
Definition rows_of {A} (data : ArrayLike A) : list A :=
  match data with
  | PyList xs | PyTuple xs => xs
  | PyArray _ rows => rows
  | PyOther _ _ => []
  end.

Definition slices_of {A} (out : split_output A) : list (list (ArrayLike A)) :=
  match out with
  | Assignments _ => []
  | Slices data_splits => [data_splits]
  | PerInput outputs => outputs
  end.



(** The items of the feature dicts of a batch, sample after sample, and
    those of its label dicts. *)
Definition batch_features {X Y : Type} (batch : list (list X * list Y))
  : list X := concat (map fst batch).

Definition batch_labels {X Y : Type} (batch : list (list X * list Y))
  : list Y := concat (map snd batch).

(** An instance of [list_to_tensor] for the examples: a tensor is a list
    of numbers, the tensors of a list are stacked, and a value that is
    not a tensor is refused. *)
Definition stack_tensors (values : list (pyvalue (list Z) string))
  : result (list (list Z)) :=
  mapM (fun v => match v with
                 | TensorV t => Ok t
                 | OtherV _ => Raise (Exception_ "not a tensor")
                 end) values.

(** A batch of two samples, and a batch whose label is not a tensor. *)
Definition a_batch
  : list (list (string * pyvalue (list Z) string) *
          list (string * pyvalue (list Z) string)) :=
  [([("x"%string, TensorV [1; 2]); ("id"%string, OtherV "a"%string)],
    [("y"%string, TensorV [0])]);
   ([("x"%string, TensorV [3; 4]); ("id"%string, OtherV "b"%string)],
    [("y"%string, TensorV [1])])].


(** The entries of a gathered dict hold the items of the fields at the
    indices [l]. *)
Definition gathered {T O : Type} (l : list Z)
    (D : list (string * list (pyvalue T O)))
    (d : list (string * list (pyvalue T O))) : Prop :=
  Forall2 (fun f g => fst g = fst f /\
                      mapM (array_getitem (snd f)) l = Ok (snd g)) D d.

(** The features and the labels of a dataset of three samples. *)
Definition some_features : list (string * list (pyvalue (list Z) string)) :=
  [("x"%string, [TensorV [1; 2]; TensorV [3; 4]; TensorV [5; 6]]);
   ("id"%string, [OtherV "a"%string; OtherV "b"%string; OtherV "c"%string])].

Definition some_labels : list (string * list (pyvalue (list Z) string)) :=
  [("y"%string, [TensorV [0]; TensorV [1]; TensorV [2]])].

(** * Properties *)

(** ** Comprehensions that can raise *)

Lemma mapM_Forall2 {A B} (f : A -> result B) l bs :
  mapM f l = Ok bs -> Forall2 (fun a b => f a = Ok b) l bs.
Proof.
  revert bs; induction l as [|a l IH]; simpl; intros bs H.
  - injection H as <-. constructor.
  - destruct (f a) as [b|e] eqn:Ha; simpl in H; [|discriminate].
    destruct (mapM f l) as [bs'|e] eqn:Hl; simpl in H; [|discriminate].
    injection H as <-. constructor; auto.
Qed.

Lemma mapM_length {A B} (f : A -> result B) l bs :
  mapM f l = Ok bs -> length bs = length l.
Proof.
  intros H. apply mapM_Forall2 in H.
  symmetry. eapply Forall2_length; eauto.
Qed.

Lemma mapM_total {A B} (f : A -> result B) l :
  Forall (fun a => exists b, f a = Ok b) l -> exists bs, mapM f l = Ok bs.
Proof.
  induction 1 as [|a l [b Hb] _ [bs Hbs]]; simpl.
  - eauto.
  - rewrite Hb, Hbs. simpl. eauto.
Qed.

Lemma mapM_raises {A B} (f : A -> result B) l e :
  mapM f l = Raise e -> exists a, In a l /\ f a = Raise e.
Proof.
  induction l as [|a l IH]; simpl; intros H; [discriminate|].
  destruct (f a) as [b|e'] eqn:Ha; simpl in H.
  - destruct (mapM f l) as [bs|e'']; simpl in H; [discriminate|].
    destruct IH as [a' [Hin Ha']]; auto. eauto.
  - injection H as ->. eauto.
Qed.

(** ** [DictDataset.__init__] *)

Lemma check_labels_all_tensors items :
  Forall (fun kv => is_tensor (snd kv) = true) items ->
  check_labels items = Ok tt.
Proof.
  induction 1 as [|[field label] items Hl _ IH]; simpl in *; auto.
  rewrite Hl. simpl. exact IH.
Qed.

Lemma check_labels_offender items :
  Exists (fun kv => is_tensor (snd kv) = false) items ->
  exists field label,
    In (field, label) items /\ is_tensor label = false /\
    check_labels items =
      Raise (ValueError (LabelNotTensor (label_message field label))).
Proof.
  induction items as [|[field label] items IH]; intros H.
  - inversion H.
  - simpl. destruct (is_tensor label) eqn:Hl; simpl.
    + inversion H as [? ? H1|? ? H1]; subst; simpl in H1; [congruence|].
      destruct (IH H1) as (f & l & Hin & Hf & Hr).
      exists f, l. auto.
    + exists field, label. auto.
Qed.

(** C9. Building a [DictDataset] whose label dict holds a value that is
    not a Tensor raises a [ValueError] whose message carries the name of
    an offending field and the type of its value; when every label value
    is a Tensor the dataset is built, with the four fields as given. *)
Theorem DictDataset_init_checks_labels {X} (nm sp : string)
    (xd : list (string * X)) (yd : list (string * pyobject)) :
  (Exists (fun kv => is_tensor (snd kv) = false) yd ->
   exists field label,
     In (field, label) yd /\ is_tensor label = false /\
     DictDataset_init nm sp xd yd =
       Raise (ValueError (LabelNotTensor
         ("Label " ++ field ++ " should be torch.Tensor, not "
                   ++ type_repr label ++ ".")))) /\
  (Forall (fun kv => is_tensor (snd kv) = true) yd ->
   DictDataset_init nm sp xd yd =
     Ok {| name := nm; split := sp; X_dict := xd; Y_dict := yd |}).
Proof.
  split; intros H; unfold DictDataset_init.
  - destruct (check_labels_offender yd H) as (f & l & Hin & Hf & Hr).
    exists f, l. rewrite Hr. auto.
  - rewrite (check_labels_all_tensors yd H). reflexivity.
Qed.

Lemma DictDataset_init_checks_labels_witness :
  (exists field label,
     In (field, label) labels_bad /\ is_tensor label = false /\
     DictDataset_init "d" "train" features labels_bad =
       Raise (ValueError (LabelNotTensor
         ("Label " ++ field ++ " should be torch.Tensor, not "
                   ++ type_repr label ++ ".")))) /\
  DictDataset_init "d" "train" features labels_ok =
    Ok {| name := "d"; split := "train"; X_dict := features;
          Y_dict := labels_ok |}.
Proof.
  split.
  - apply (proj1 (DictDataset_init_checks_labels "d" "train" features
                    labels_bad)).
    apply Exists_cons_tl, Exists_cons_hd. reflexivity.
  - apply (proj2 (DictDataset_init_checks_labels "d" "train" features
                    labels_ok)).
    repeat constructor.
Defined.

(** The message for [labels_bad], as Python prints it. *)
Example DictDataset_init_message :
  DictDataset_init "d" "train" features labels_bad =
  Raise (ValueError (LabelNotTensor
    "Label task2 should be torch.Tensor, not <class 'int'>.")).
Proof. reflexivity. Qed.

(** ** Shuffling and the seed *)

Section SplitDataFlags.
Context {A : Type}.
Variables (rng seed_t : Type).
Variable random_seed : seed_t -> rng.
Variable random_shuffle : list Z -> rng -> list Z * rng.

  (** [random.seed] replaces the state of the generator. *)
Lemma split_data_seed_resets
    (inputs : list (ArrayLike A)) splits shuffle stratify_by index_only s
    g1 g2 :
  split_data random_seed random_shuffle
             inputs splits shuffle stratify_by index_only (Some s) g1 =
  split_data random_seed random_shuffle
             inputs splits shuffle stratify_by index_only (Some s) g2.
Proof. reflexivity. Qed.

(** C3. With a seed and no stratification, a call gives the same index
    assignments from whatever state the generator is in, and a second
    call with the same inputs, splits and shuffle setting, made after the
    first, gives what the first gave. *)
Theorem split_data_seeded_deterministic
    (inputs : list (ArrayLike A)) splits shuffle index_only s g :
  (forall g',
     split_data random_seed random_shuffle
                inputs splits shuffle None index_only (Some s) g' =
     split_data random_seed random_shuffle
                inputs splits shuffle None index_only (Some s) g) /\
  (let '(first, g1) :=
     split_data random_seed random_shuffle
                inputs splits shuffle None index_only (Some s) g in
   let '(second, _) :=
     split_data random_seed random_shuffle
                inputs splits shuffle None index_only (Some s) g1 in
   first = second).
Proof.
  split.
  - intros g'. apply split_data_seed_resets.
  - destruct (split_data random_seed random_shuffle inputs splits shuffle
                None index_only (Some s) g) as [first g1] eqn:H1.
    rewrite (split_data_seed_resets inputs splits shuffle None index_only s
               g1 g), H1.
    reflexivity.
Qed.

End SplitDataFlags.

(** Without a seed the assignments follow the state of the generator. *)
Example split_data_unseeded_follows_state :
  fst (split_data Lcg.seed Lcg.shuffle
         [PyList [10; 11; 12; 13]] [PyInt 2; PyInt 2] true None true None 1) <>
  fst (split_data Lcg.seed Lcg.shuffle
         [PyList [10; 11; 12; 13]] [PyInt 2; PyInt 2] true None true None 2).
Proof. vm_compute. discriminate. Qed.

(** Under stratification a call with [shuffle=False] does not keep the
    pools in their original order. *)
Example split_data_stratified_shuffles :
  fst (split_data Lcg.seed Lcg.shuffle
         [PyList [10; 11; 12; 13; 14; 15]] [PyInt 3; PyInt 3] false
         (Some [0; 0; 0; 0; 0; 0]) true (Some 1) 0) =
  Ok (Assignments [[0; 1; 2]; [4; 3; 5]]).
Proof. vm_compute. reflexivity. Qed.


(** ** [slice_data] *)

Section SliceData.
Context {A : Type}.

Lemma StronglySorted_filter {B} (R : B -> B -> Prop) (f : B -> bool) l :
  StronglySorted R l -> StronglySorted R (filter f l).
Proof.
  induction 1 as [|b l Hs IH Hb]; simpl.
  - constructor.
  - destruct (f b); auto. constructor; auto.
    rewrite Forall_forall in *. intros c Hc.
    apply filter_In in Hc. apply Hb. tauto.
Qed.

Lemma StronglySorted_seq s n : StronglySorted Nat.lt (seq s n).
Proof.
  revert s; induction n as [|n IH]; intros s; simpl; constructor; auto.
  rewrite Forall_forall. intros p Hp. apply in_seq in Hp. lia.
Qed.

Lemma in_set_In i indices : in_set i indices = true <-> In i indices.
Proof.
  unfold in_set. rewrite existsb_exists. split.
  - intros [j [Hj Heq]]. apply Z.eqb_eq in Heq. now subst.
  - intros H. exists i. split; auto. apply Z.eqb_refl.
Qed.

Lemma filter_enumerate_from (xs : list A) (indices : list Z) (s : nat) :
  Forall2 (fun p y => (s <= p)%nat /\ nth_error xs (p - s) = Some y)
    (filter (fun p => in_set (Z.of_nat p) indices) (seq s (length xs)))
    (map snd (filter (fun '(i, _) => in_set i indices)
                     (combine (map Z.of_nat (seq s (length xs))) xs))).
Proof.
  revert s; induction xs as [|x xs IH]; intros s; simpl.
  - constructor.
  - assert (Htl : Forall2
      (fun p y => (s <= p)%nat /\ nth_error (x :: xs) (p - s) = Some y)
      (filter (fun p => in_set (Z.of_nat p) indices) (seq (S s) (length xs)))
      (map snd (filter (fun '(i, _) => in_set i indices)
                       (combine (map Z.of_nat (seq (S s) (length xs))) xs)))).
    { eapply Forall2_impl; [|apply IH].
      intros p y [Hle Hnth]. split; [lia|].
      replace (p - s)%nat with (S (p - S s)) by lia. exact Hnth. }
    destruct (in_set (Z.of_nat s) indices); simpl; auto.
    constructor; auto. split; [lia|].
    now rewrite Nat.sub_diag.
Qed.

Lemma slice_list (xs : list A) (indices : list Z) :
  exists ys,
    map snd (filter (fun '(i, _) => in_set i indices) (enumerate xs)) = ys /\
    Forall2 (fun p y => nth_error xs p = Some y)
            (kept_positions (length xs) indices) ys.
Proof.
  eexists. split; [reflexivity|].
  eapply Forall2_impl; [|apply (filter_enumerate_from xs indices 0)].
  intros p y [_ H]. now rewrite Nat.sub_0_r in H.
Qed.

Lemma kept_positions_sorted len indices :
  StronglySorted Nat.lt (kept_positions len indices).
Proof. apply StronglySorted_filter, StronglySorted_seq. Qed.

Lemma kept_positions_In len indices p :
  In p (kept_positions len indices) <->
  (p < len)%nat /\ In (Z.of_nat p) indices.
Proof.
  unfold kept_positions. rewrite filter_In, in_seq, in_set_In.
  intuition lia.
Qed.

Lemma array_getitem_in_range (rows : list A) (i : Z) :
  0 <= i < Z.of_nat (length rows) ->
  exists r, array_getitem rows i = Ok r /\
            nth_error rows (Z.to_nat i) = Some r.
Proof.
  intros Hi. unfold array_getitem.
  destruct (Z.ltb_spec i 0); [lia|].
  destruct (Z.leb_spec 0 i); [|lia].
  destruct (Z.ltb_spec i (Z.of_nat (length rows))); [|lia]. simpl.
  destruct (nth_error rows (Z.to_nat i)) as [r|] eqn:Hr; eauto.
  apply nth_error_None in Hr. lia.
Qed.

(** C7. A list or a tuple is sliced to the elements at the positions
    that the index list names, taken in increasing position order,
    whatever the order of the index list (and once each, however often
    the index list names them); an array, a tensor or a sparse matrix of
    a format that defines indexing is sliced to its rows in the order of
    the index list; a sparse matrix of a format without indexing has no
    slice: the [TypeError] of [data[indices]] comes back as the
    [Exception] that names its type. *)
Theorem slice_data_order (xs : list A) (indices : list Z) (k : array_kind) :
  (forall data, data = PyList xs \/ data = PyTuple xs ->
   exists positions ys,
     slice_data data indices = Ok (PyList ys) /\
     StronglySorted Nat.lt positions /\
     (forall p, In p positions <->
                (p < length xs)%nat /\ In (Z.of_nat p) indices) /\
     Forall2 (fun p y => nth_error xs p = Some y) positions ys) /\
  (subscriptable_kind k = true ->
   Forall (fun i => 0 <= i < Z.of_nat (length xs)) indices ->
   exists rs,
     slice_data (PyArray k xs) indices = Ok (PyArray k rs) /\
     Forall2 (fun i r => nth_error xs (Z.to_nat i) = Some r) indices rs) /\
  (subscriptable_kind k = false ->
   exists ty,
     k = spmatrix ty false /\
     slice_data (PyArray k xs) indices =
       Raise (Exception_
                ("split_data() currently only accepts inputs of type tuple, list, np.ndarray, scipy.sparse, or torch.Tensor; not "
                   ++ ty))).
Proof.
  split; [|split].
  - intros data Hdata.
    destruct (slice_list xs indices) as [ys [Hys Hnth]].
    exists (kept_positions (length xs) indices), ys.
    split; [|split; [apply kept_positions_sorted|split; auto]].
    + destruct Hdata as [-> | ->]; simpl; now rewrite Hys.
    + intros p. apply kept_positions_In.
  - intros Hk Hin.
    assert (H : exists rs, mapM (array_getitem xs) indices = Ok rs /\
              Forall2 (fun i r => nth_error xs (Z.to_nat i) = Some r)
                      indices rs).
    { induction Hin as [|i indices Hi _ [rs [Hrs Hnth]]]; simpl.
      - exists []. split; auto.
      - destruct (array_getitem_in_range xs i Hi) as [r [Hr Hn]].
        rewrite Hr, Hrs. simpl. exists (r :: rs). split; auto. }
    destruct H as [rs [Hrs Hnth]]. exists rs.
    destruct k as [|ty [|]|]; try discriminate; simpl; rewrite Hrs; auto.
  - intros Hk. destruct k as [|ty [|]|]; try discriminate.
    exists ty. split; reflexivity.
Qed.

End SliceData.

Lemma slice_data_order_witness :
  (exists positions ys,
     slice_data (PyList [10; 11; 12; 13]) [3; 1] = Ok (PyList ys) /\
     StronglySorted Nat.lt positions /\
     (forall p, In p positions <->
                (p < length [10; 11; 12; 13])%nat /\ In (Z.of_nat p) [3; 1]) /\
     Forall2 (fun p y => nth_error [10; 11; 12; 13] p = Some y) positions ys) /\
  (exists rs,
     slice_data (PyArray ndarray [10; 11; 12; 13]) [3; 1] =
       Ok (PyArray ndarray rs) /\
     Forall2 (fun i r => nth_error [10; 11; 12; 13] (Z.to_nat i) = Some r)
             [3; 1] rs) /\
  (exists ty,
     spmatrix "<class 'scipy.sparse.coo.coo_matrix'>" false =
       spmatrix ty false /\
     slice_data
       (PyArray (spmatrix "<class 'scipy.sparse.coo.coo_matrix'>" false)
                [10; 11; 12; 13]) [3; 1] =
       Raise (Exception_
                ("split_data() currently only accepts inputs of type tuple, list, np.ndarray, scipy.sparse, or torch.Tensor; not "
                   ++ ty))).
Proof.
  split; [|split].
  - apply (proj1 (slice_data_order [10; 11; 12; 13] [3; 1] ndarray)).
    left. reflexivity.
  - apply (proj1 (proj2 (slice_data_order [10; 11; 12; 13] [3; 1] ndarray))).
    + reflexivity.
    + repeat constructor; simpl; lia.
  - apply (proj2 (proj2 (slice_data_order [10; 11; 12; 13] [3; 1]
             (spmatrix "<class 'scipy.sparse.coo.coo_matrix'>" false)))).
    reflexivity.
Defined.

(** The same index list on a list and on an array. *)
Example slice_data_list_vs_array :
  slice_data (PyList [10; 11; 12; 13]) [3; 1] = Ok (PyList [11; 13]) /\
  slice_data (PyTuple [10; 11; 12; 13]) [3; 1] = Ok (PyList [11; 13]) /\
  slice_data (PyArray ndarray [10; 11; 12; 13]) [3; 1] =
    Ok (PyArray ndarray [13; 11]).
Proof. repeat split. Qed.


(** ** The shape of what [split_data] returns *)

Section SplitDataShape.
Context {A : Type}.
Variables (rng seed_t : Type).
Variable random_seed : seed_t -> rng.
Variable random_shuffle : list Z -> rng -> list Z * rng.

Lemma length_extend_assignments a pool cum :
  length (extend_assignments a pool cum) = length a.
Proof.
  unfold extend_assignments.
  rewrite length_map, length_combine, length_seq. apply Nat.min_id.
Qed.

Lemma assign_pools_length sh fracs pools a g a' g' :
  assign_pools random_shuffle sh fracs pools a g = (Ok a', g') ->
  length a' = length a.
Proof.
  revert a g; induction pools as [|pool pools IH]; simpl; intros a g H.
  - now inversion H.
  - destruct (if sh then random_shuffle pool g else (pool, g)) as [p g1].
    destruct (fractions_to_counts fracs (Z.of_nat (length p)));
      [|discriminate].
    apply IH in H. now rewrite H, length_extend_assignments.
Qed.

(** What a call computes before it looks at [index_only]: the generator
    after [random.seed], the sample count, the fractions and the pools. *)
Lemma split_data_unfold (inputs : list (ArrayLike A)) splits shuffle
    stratify_by index_only seed g :
  split_data random_seed random_shuffle inputs splits shuffle stratify_by
             index_only seed g =
  let g0 := match seed with Some s => random_seed s | None => g end in
  match sample_count inputs with
  | Raise e => (Raise e, g0)
  | Ok n =>
    match resolve_fracs splits (Z.of_nat n) with
    | Raise e => (Raise e, g0)
    | Ok fracs =>
      match assign_pools random_shuffle (shuffle || is_some stratify_by) fracs
              (match stratify_by with
               | None => [arange n]
               | Some labels => make_pools labels
               end)
              (repeat [] (length splits)) g0 with
      | (Raise e, g1) => (Raise e, g1)
      | (Ok a, g1) =>
        if index_only then (Ok (Assignments a), g1)
        else match mapM (fun data => mapM (slice_data data) a) inputs with
             | Raise e => (Raise e, g1)
             | Ok [data_splits] => (Ok (Slices data_splits), g1)
             | Ok outputs => (Ok (PerInput outputs), g1)
             end
      end
    end
  end.
Proof.
  unfold split_data. cbv zeta.
  reflexivity.
Qed.

(** C8. A call with [index_only=False] that returns gives, for one input
    collection, the flat list of its K slices, and for several, one list
    of K slices per collection, in the order of the collections; the
    slices are those of the index lists that [index_only=True] returns. *)
Theorem split_data_output_shape (inputs : list (ArrayLike A)) splits shuffle
    stratify_by seed g out g' :
  split_data random_seed random_shuffle inputs splits shuffle stratify_by
             false seed g = (Ok out, g') ->
  exists assignments,
    split_data random_seed random_shuffle inputs splits shuffle stratify_by
               true seed g = (Ok (Assignments assignments), g') /\
    length assignments = length splits /\
    (forall data, inputs = [data] ->
       exists slices,
         out = Slices slices /\ length slices = length splits /\
         mapM (slice_data data) assignments = Ok slices) /\
    ((1 < length inputs)%nat ->
       exists outputs,
         out = PerInput outputs /\ length outputs = length inputs /\
         Forall2 (fun data data_splits =>
                    mapM (slice_data data) assignments = Ok data_splits /\
                    length data_splits = length splits)
                 inputs outputs).
Proof.
  rewrite !split_data_unfold. cbv zeta.
  destruct (sample_count inputs) as [n|]; [|discriminate].
  destruct (resolve_fracs splits _) as [fracs|]; [|discriminate].
  destruct (assign_pools _ _ _ _ _ _) as [[a|e] g1] eqn:Ha; [|discriminate].
  apply assign_pools_length in Ha. rewrite repeat_length in Ha.
  destruct (mapM _ inputs) as [outputs|] eqn:Hm; [|discriminate].
  intros H. exists a.
  assert (Hg : g1 = g') by (destruct outputs as [|? [|]]; congruence).
  subst g1. split; [reflexivity|]. split; [exact Ha|].
  pose proof (mapM_Forall2 _ _ _ Hm) as HF.
  assert (HF' : Forall2 (fun data data_splits =>
                   mapM (slice_data data) a = Ok data_splits /\
                   length data_splits = length splits) inputs outputs).
  { eapply Forall2_impl; [|exact HF]. intros d o Ho. split; auto.
    apply mapM_length in Ho. congruence. }
  split.
  - intros data ->. inversion HF' as [|? o ? ? [Ho Hlen] Htl]; subst.
    inversion Htl; subst. exists o. inversion H. auto.
  - intros Hlen. apply Forall2_length in HF.
    destruct outputs as [|o1 [|o2 outputs]]; simpl in *; try lia.
    exists (o1 :: o2 :: outputs). inversion H. auto.
Qed.

(** [slice_data] raises an [IndexError] or a plain [Exception], never a
    [ValueError]. *)
Lemma slice_data_no_ValueError (data : ArrayLike A) indices e :
  slice_data data indices <> Raise (ValueError e).
Proof.
  destruct data as [xs|xs|k rows|ty len]; simpl; try discriminate.
  assert (H : (do rs <- mapM (array_getitem rows) indices; Ok (PyArray k rs))
              <> Raise (ValueError e)).
  { destruct (mapM (array_getitem rows) indices) as [rs|e'] eqn:Hm; simpl;
      [discriminate|].
    apply mapM_raises in Hm. destruct Hm as [i [_ Hi]].
    unfold array_getitem in Hi.
    destruct ((0 <=? _) && _); [destruct (nth_error _ _)|]; congruence. }
  destruct k as [|ty [|]|]; solve [exact H | discriminate].
Qed.

(** C10. The sample count is the length of the first collection: the
    index lists of a call are those of the call on its first collection
    alone, whatever the lengths of the others, and a [ValueError] that a
    call raises is one that the call on its first collection alone
    raises, so none is about a mismatch of lengths. *)
Theorem split_data_ignores_other_lengths (data : ArrayLike A) rest splits
    shuffle stratify_by index_only seed g :
  sample_count (data :: rest) = sample_count [data] /\
  split_data random_seed random_shuffle (data :: rest) splits shuffle
             stratify_by true seed g =
  split_data random_seed random_shuffle [data] splits shuffle
             stratify_by true seed g /\
  (forall e g',
     split_data random_seed random_shuffle (data :: rest) splits shuffle
                stratify_by index_only seed g = (Raise (ValueError e), g') ->
     split_data random_seed random_shuffle [data] splits shuffle
                stratify_by true seed g = (Raise (ValueError e), g')).
Proof.
  assert (Hn : sample_count (data :: rest) = sample_count [data])
    by (destruct data as [| | |? [|]]; reflexivity).
  split; [exact Hn|]. rewrite !split_data_unfold, Hn. cbv zeta.
  split; [reflexivity|].
  intros e g'.
  destruct (sample_count [data]) as [n|]; auto.
  destruct (resolve_fracs splits _) as [fracs|]; auto.
  destruct (assign_pools _ _ _ _ _ _) as [[a|e1] g1]; auto.
  destruct index_only; [discriminate|].
  destruct (mapM _ (data :: rest)) as [outputs|e1] eqn:Hm.
  - destruct outputs as [|? [|]]; discriminate.
  - intros H. exfalso. injection H as -> _.
    apply mapM_raises in Hm. destruct Hm as [d [_ Hd]].
    apply mapM_raises in Hd. destruct Hd as [idx [_ Hd]].
    exact (slice_data_no_ValueError d idx e Hd).
Qed.

End SplitDataShape.

Lemma split_data_output_shape_witness :
  exists assignments,
    split_data Lcg.seed Lcg.shuffle
      [PyList [10; 11; 12; 13]; PyArray ndarray [20; 21; 22; 23]]
      [PyInt 1; PyInt 3] true None true (Some 5) 0 =
      (Ok (Assignments assignments), 2089129857) /\
    length assignments = length [PyInt 1; PyInt 3] /\
    (forall data,
       [PyList [10; 11; 12; 13]; PyArray ndarray [20; 21; 22; 23]] = [data] ->
       exists slices,
         PerInput [[PyList [12]; PyList [10; 11; 13]];
                   [PyArray ndarray [22]; PyArray ndarray [20; 21; 23]]] =
           Slices slices /\
         length slices = length [PyInt 1; PyInt 3] /\
         mapM (slice_data data) assignments = Ok slices) /\
    ((1 < length [PyList [10; 11; 12; 13];
                  PyArray ndarray [20; 21; 22; 23]])%nat ->
       exists outputs,
         PerInput [[PyList [12]; PyList [10; 11; 13]];
                   [PyArray ndarray [22]; PyArray ndarray [20; 21; 23]]] =
           PerInput outputs /\
         length outputs =
           length [PyList [10; 11; 12; 13];
                   PyArray ndarray [20; 21; 22; 23]] /\
         Forall2 (fun data data_splits =>
                    mapM (slice_data data) assignments = Ok data_splits /\
                    length data_splits = length [PyInt 1; PyInt 3])
                 [PyList [10; 11; 12; 13]; PyArray ndarray [20; 21; 22; 23]]
                 outputs).
Proof.
  apply (split_data_output_shape Lcg.rng Z Lcg.seed Lcg.shuffle
           [PyList [10; 11; 12; 13]; PyArray ndarray [20; 21; 22; 23]]
           [PyInt 1; PyInt 3] true None (Some 5) 0).
  vm_compute. reflexivity.
Defined.

Lemma split_data_ignores_other_lengths_witness :
  sample_count [PyList [10; 11; 12]; PyList [20]] =
    sample_count [PyList [10; 11; 12]] /\
  split_data Lcg.seed Lcg.shuffle [PyList [10; 11; 12]; PyList [20]]
             [PyInt 1; PyInt 1] true None true None 0 =
  split_data Lcg.seed Lcg.shuffle [PyList [10; 11; 12]]
             [PyInt 1; PyInt 1] true None true None 0 /\
  split_data Lcg.seed Lcg.shuffle [PyList [10; 11; 12]]
             [PyInt 1; PyInt 1] true None true None 0 =
    (Raise (ValueError (SplitCountsSum 3 2)), 0).
Proof.
  destruct (split_data_ignores_other_lengths Lcg.rng Z Lcg.seed Lcg.shuffle
              (PyList [10; 11; 12]) [PyList [20]] [PyInt 1; PyInt 1]
              true None false None 0) as (H1 & H2 & H3).
  split; [exact H1|]. split; [exact H2|].
  apply H3. vm_compute. reflexivity.
Defined.

(** Collections of three and of one sample: the call returns, and the
    slices of the short list are short. *)
Example split_data_mismatched_lengths :
  split_data Lcg.seed Lcg.shuffle [PyList [10; 11; 12]; PyList [20]]
             [PyInt 1; PyInt 2] false None false None 0 =
  (Ok (PerInput [[PyList [10]; PyList [11; 12]];
                 [PyList [20]; PyList []]]), 0).
Proof. vm_compute. reflexivity. Qed.


(** ** Signs and finiteness of doubles *)

Module PyFloatFacts.
Import PyFloat.

Lemma iter_pos_invariant {B} (P : B -> Prop) (f : B -> B) :
  (forall x, P x -> P (f x)) -> forall n x, P x -> P (iter_pos f n x).
Proof.
  intros Hf. induction n as [n IH|n IH|]; simpl; intros x Hx; auto.
Qed.

Lemma shr_1_nonneg mrs : 0 <= shr_m mrs -> 0 <= shr_m (shr_1 mrs).
Proof.
  destruct mrs as [m r s]. simpl.
  destruct m as [|[p|p|]|p]; simpl; lia.
Qed.

Lemma shr_nonneg mrs e n : 0 <= shr_m mrs -> 0 <= shr_m (fst (shr mrs e n)).
Proof.
  intros H. destruct n as [|p|p]; simpl; auto.
  apply (iter_pos_invariant (fun x => 0 <= shr_m x)); auto.
  apply shr_1_nonneg.
Qed.

Lemma shr_fexp_nonneg m e l :
  0 <= m -> 0 <= shr_m (fst (shr_fexp prec emax m e l)).
Proof.
  intros H. unfold shr_fexp. apply shr_nonneg.
  destruct l as [|[]]; exact H.
Qed.

Lemma round_nearest_even_nonneg m l : 0 <= m -> 0 <= round_nearest_even m l.
Proof.
  intros H. destruct l as [|[]]; simpl; try lia.
  destruct (Z.even m); lia.
Qed.

(** Rounding keeps the sign it is given. *)
Lemma binary_round_aux_sign sx mx ex lx :
  match binary_round_aux prec emax sx mx ex lx with
  | S754_zero s | S754_infinity s | S754_finite s _ _ => s = sx
  | S754_nan => True
  end.
Proof.
  unfold binary_round_aux.
  destruct (shr_fexp prec emax mx ex lx) as [mrs' e'].
  destruct (shr_fexp prec emax _ e' loc_Exact) as [mrs'' e''].
  destruct (shr_m mrs''); auto.
  destruct (e'' <=? emax - prec); auto.
Qed.

(** Rounding a mantissa that is not negative never gives NaN. *)
Lemma binary_round_aux_not_nan sx mx ex lx :
  0 <= mx -> binary_round_aux prec emax sx mx ex lx <> S754_nan.
Proof.
  intros H. unfold binary_round_aux.
  pose proof (shr_fexp_nonneg mx ex lx H) as H1.
  destruct (shr_fexp prec emax mx ex lx) as [mrs' e']. simpl in H1.
  pose proof (shr_fexp_nonneg _ e' loc_Exact
                (round_nearest_even_nonneg _ (loc_of_shr_record mrs') H1))
    as H2.
  destruct (shr_fexp prec emax _ e' loc_Exact) as [mrs'' e'']. simpl in H2.
  destruct (shr_m mrs''); try lia; try discriminate.
  destruct (e'' <=? emax - prec); discriminate.
Qed.

Lemma of_int_finite z x : of_int z = Ok x -> is_finite x = true.
Proof.
  unfold of_int. destruct (is_finite _) eqn:H; congruence.
Qed.

Lemma of_int_nonneg z x : 0 <= z -> of_int z = Ok x -> is_nonneg x = true.
Proof.
  intros Hz. unfold of_int.
  destruct (is_finite _) eqn:Hf; [|discriminate]. injection 1 as <-.
  destruct z as [|p|p]; try lia; [reflexivity|].
  unfold binary_normalize, binary_round in *.
  destruct (shl_align p 0 _) as [mz ez].
  pose proof (binary_round_aux_sign false (Z.pos mz) ez loc_Exact) as Hs.
  destruct (binary_round_aux _ _ _ _ _ _); try discriminate; now subst.
Qed.

Lemma int_truediv_finite a b f :
  int_truediv a b = Ok f -> is_finite f = true.
Proof.
  unfold int_truediv. destruct (b =? 0); [discriminate|].
  destruct (is_finite _) eqn:H; congruence.
Qed.

Lemma int_truediv_nonneg a b f :
  0 <= a -> 0 < b -> int_truediv a b = Ok f -> is_nonneg f = true.
Proof.
  intros Ha Hb. unfold int_truediv. destruct (b =? 0); [discriminate|].
  destruct (is_finite _) eqn:Hf; [|discriminate]. injection 1 as <-.
  destruct b as [|q|q]; try lia.
  destruct a as [|p|p]; try lia; [reflexivity|].
  simpl in *.
  destruct (SFdiv_core_binary prec emax (Z.pos p) 0 (Z.pos q) 0)
    as [[mz ez] lz].
  pose proof (binary_round_aux_sign false mz ez lz) as Hs.
  destruct (binary_round_aux _ _ _ _ _ _); try discriminate; now subst.
Qed.

Lemma mul_finite_not_nan x y :
  is_finite x = true -> is_finite y = true -> mul x y <> S754_nan.
Proof.
  destruct x as [sx|sx| |sx mx ex], y as [sy|sy| |sy my ey];
    simpl; try discriminate.
  intros _ _. apply binary_round_aux_not_nan. lia.
Qed.

Lemma mul_nonneg x y :
  is_nonneg x = true -> is_nonneg y = true ->
  mul x y = S754_nan \/ is_nonneg (mul x y) = true.
Proof.
  destruct x as [sx|sx| |sx mx ex], y as [sy|sy| |sy my ey];
    simpl; try discriminate; auto;
    try (intros Hx Hy; apply negb_true_iff in Hx, Hy; subst; auto).
  unfold mul. simpl.
  pose proof (binary_round_aux_sign false (Z.pos (mx * my)) (ex + ey)
                loc_Exact) as Hs.
  destruct (binary_round_aux _ _ _ _ _ _); subst; auto.
Qed.

Lemma rint_pos_nonneg m e : 0 <= rint_pos m e.
Proof.
  unfold rint_pos. destruct (0 <=? e) eqn:He.
  - apply Z.leb_le in He. apply Z.mul_nonneg_nonneg; [lia|].
    apply Z.pow_nonneg. lia.
  - apply Z.leb_gt in He.
    assert (Hd : 0 < 2 ^ (- e)) by (apply Z.pow_pos_nonneg; lia).
    assert (Hq : 0 <= Z.pos m / 2 ^ (- e)) by (apply Z.div_pos; lia).
    destruct (2 * (Z.pos m mod 2 ^ (- e)) ?= 2 ^ (- e)); try lia.
    destruct (Z.even _); lia.
Qed.

Lemma round_to_int_nonneg x c :
  is_nonneg x = true -> round_to_int x = Ok c -> 0 <= c.
Proof.
  destruct x as [s|s| |s m e]; simpl; try discriminate.
  - intros _ [= <-]. lia.
  - intros Hs [= <-]. apply negb_true_iff in Hs. subst. simpl.
    apply rint_pos_nonneg.
Qed.

Lemma round_to_int_finite x :
  is_finite x = true -> exists c, round_to_int x = Ok c.
Proof. destruct x; simpl; try discriminate; eauto. Qed.

Lemma round_to_int_ValueError x e :
  round_to_int x = Raise (ValueError e) -> x = S754_nan.
Proof. destruct x; simpl; congruence. Qed.

(** A sum is finite only if both terms are. *)
Lemma add_finite x y :
  is_finite (add x y) = true -> is_finite x = true /\ is_finite y = true.
Proof.
  destruct x as [sx|sx| |sx mx ex], y as [sy|sy| |sy my ey]; simpl; auto;
    destruct sx, sy; simpl; auto.
Qed.

Lemma eqb_one_finite x : eqb x one = true -> is_finite x = true.
Proof. destruct x as [s|[]| |s m e]; simpl; auto. Qed.

End PyFloatFacts.


(** ** [fractions_to_counts] *)

Lemma fold_left_add_from l a : fold_left Z.add l a = a + sum_ints l.
Proof.
  unfold sum_ints. revert a; induction l as [|x l IH]; simpl; intros a.
  - lia.
  - rewrite IH, (IH x). lia.
Qed.

Lemma sum_ints_cons x l : sum_ints (x :: l) = x + sum_ints l.
Proof. unfold sum_ints at 1. simpl. apply fold_left_add_from. Qed.

Lemma sum_ints_app l1 l2 : sum_ints (l1 ++ l2) = sum_ints l1 + sum_ints l2.
Proof.
  unfold sum_ints at 1. rewrite fold_left_app, fold_left_add_from.
  reflexivity.
Qed.

Lemma sum_ints_nonneg l : Forall (fun c => 0 <= c) l -> 0 <= sum_ints l.
Proof.
  induction 1 as [|c l Hc _ IH]; [reflexivity|].
  rewrite sum_ints_cons. lia.
Qed.

Lemma length_removelast {B} (l : list B) :
  length (removelast l) = (length l - 1)%nat.
Proof.
  destruct l as [|b l] using rev_ind; [reflexivity|].
  rewrite removelast_last, length_app. simpl. lia.
Qed.

(** A successful call, taken apart: the rounded counts, and the result
    with the last one replaced. *)
Lemma fractions_to_counts_inv fracs n counts :
  fractions_to_counts fracs n = Ok counts ->
  exists rounded,
    mapM (round_count n) fracs = Ok rounded /\ rounded <> [] /\
    counts = removelast rounded ++ [n - sum_ints (removelast rounded)].
Proof.
  unfold fractions_to_counts.
  destruct (mapM (round_count n) fracs) as [rounded|] eqn:Hm; simpl;
    [|discriminate].
  destruct rounded as [|c rounded]; [discriminate|].
  injection 1 as <-. exists (c :: rounded). repeat split. discriminate.
Qed.

Lemma Forall2_nth {B C} (R : B -> C -> Prop) l1 l2 i d1 d2 :
  Forall2 R l1 l2 -> (i < length l1)%nat -> R (nth i l1 d1) (nth i l2 d2).
Proof.
  intros H; revert i; induction H as [|b c l1 l2 Hbc _ IH]; simpl; intros i Hi.
  - lia.
  - destruct i; auto. apply IH. lia.
Qed.

Lemma nth_removelast {B} (l : list B) i d :
  (S i < length l)%nat -> nth i (removelast l) d = nth i l d.
Proof.
  destruct l as [|b l] using rev_ind; simpl; [lia|].
  rewrite removelast_last, length_app. simpl. intros H.
  rewrite app_nth1; [reflexivity|lia].
Qed.

(** The product [n * frac] being finite is what the rounding needs. *)
Lemma round_count_defined n x frac :
  PyFloat.of_int n = Ok x ->
  PyFloat.is_finite (PyFloat.mul x frac) = true ->
  exists c, round_count n frac = Ok c.
Proof.
  intros Hx Hf. unfold round_count, PyFloat.int_mul. rewrite Hx. simpl.
  now apply PyFloatFacts.round_to_int_finite.
Qed.

(** [int(np.round(x))] is the integer nearest to the value of [x], the
    even one at a tie. *)
Lemma round_to_int_nearest x c :
  PyFloat.round_to_int x = Ok c ->
  nearest_even (fst (float_ratio x)) (snd (float_ratio x)) c.
Proof.
  unfold nearest_even, float_ratio, PyFloat.round_to_int.
  destruct x as [s|s| |s m e]; try discriminate.
  - intros [= <-]. cbn [fst snd]. split; [lia|intros H; exfalso; lia].
  - intros [= <-]. unfold PyFloat.rint_pos.
    destruct (Z.leb_spec 0 e) as [He|He]; cbn [fst snd].
    + replace (cond_Zopp s (Z.pos m * 2 ^ e) * 1 -
               cond_Zopp s (Z.pos m) * 2 ^ e) with 0
        by (destruct s; unfold cond_Zopp; ring).
      split; [lia|intros H; exfalso; lia].
    + assert (Hd : 0 < 2 ^ (- e)) by (apply Z.pow_pos_nonneg; lia).
      pose proof (Z.div_mod (Z.pos m) (2 ^ (- e)) ltac:(lia)) as Hdm.
      pose proof (Z.mod_pos_bound (Z.pos m) (2 ^ (- e)) Hd) as Hr.
      set (d := 2 ^ (- e)) in *.
      set (q := Z.pos m / d) in *. set (r := Z.pos m mod d) in *.
      assert (Hval : forall c0,
                cond_Zopp s c0 * d - cond_Zopp s (Z.pos m) =
                cond_Zopp s (c0 * d - Z.pos m))
        by (intros c0; destruct s; unfold cond_Zopp; ring).
      assert (Habs : forall z, Z.abs (cond_Zopp s z) = Z.abs z)
        by (intros z; destruct s; unfold cond_Zopp; lia).
      assert (Heven : forall z, Z.even (cond_Zopp s z) = Z.even z)
        by (intros z; destruct s; unfold cond_Zopp;
            [apply Z.even_opp|reflexivity]).
      rewrite Hval, Habs, Heven.
      destruct (Z.compare_spec (2 * r) d) as [Heq|Hlt|Hgt].
      * destruct (Z.even q) eqn:Hq.
        -- split; [lia|auto].
        -- split; [lia|]. intros _.
           rewrite Z.even_add, Hq. reflexivity.
      * split; [lia|intros H; exfalso; lia].
      * split; [lia|intros H; exfalso; lia].
Qed.

(** C4. For K >= 1 fractions and a pool size [m] whose products with the
    fractions are finite doubles, [fractions_to_counts] returns K counts
    that sum to [m]: each of the first K-1 is the rounding of [m] times
    its fraction, that is the integer nearest to the double product of
    [m] and the fraction, the even one at a tie; and the last is [m]
    minus the sum of the others. *)
Theorem fractions_to_counts_sums_to_n fracs m x :
  fracs <> [] ->
  PyFloat.of_int m = Ok x ->
  Forall (fun frac => PyFloat.is_finite (PyFloat.mul x frac) = true) fracs ->
  exists counts,
    fractions_to_counts fracs m = Ok counts /\
    length counts = length fracs /\
    sum_ints counts = m /\
    (forall i, (S i < length fracs)%nat ->
       let product :=
         SFmul 53 1024 (binary_normalize 53 1024 m 0 false)
               (nth i fracs PyFloat.one) in
       nearest_even (fst (float_ratio product)) (snd (float_ratio product))
                    (nth i counts 0)) /\
    last counts 0 = m - sum_ints (removelast counts).
Proof.
  intros Hne Hx Hfin.
  destruct (mapM_total (round_count m) fracs) as [rounded Hm].
  { eapply Forall_impl; [|exact Hfin].
    intros frac. apply round_count_defined, Hx. }
  pose proof (mapM_length _ _ _ Hm) as Hlen.
  pose proof (mapM_Forall2 _ _ _ Hm) as HF.
  assert (Hr : rounded <> []) by (destruct rounded, fracs; simpl in *; congruence).
  exists (removelast rounded ++ [m - sum_ints (removelast rounded)]).
  split; [|split; [|split; [|split]]].
  - unfold fractions_to_counts. rewrite Hm. simpl.
    destruct rounded; [congruence|reflexivity].
  - rewrite length_app, length_removelast. simpl.
    destruct rounded; simpl in *; [congruence|lia].
  - rewrite sum_ints_app, sum_ints_cons. change (sum_ints []) with 0. lia.
  - intros i Hi product. rewrite app_nth1 by (rewrite length_removelast; lia).
    rewrite nth_removelast by lia.
    assert (Hc : round_count m (nth i fracs PyFloat.one) =
                 Ok (nth i rounded 0))
      by (apply (Forall2_nth (fun a b => round_count m a = Ok b));
          [exact HF|lia]).
    unfold round_count, PyFloat.int_mul in Hc. rewrite Hx in Hc.
    simpl in Hc. apply round_to_int_nearest in Hc.
    unfold PyFloat.of_int in Hx.
    destruct (PyFloat.is_finite _) in Hx; [|discriminate].
    injection Hx as <-. exact Hc.
  - now rewrite last_last, removelast_last.
Qed.

(** An empty list of fractions makes [counts[-1] = ...] fail. *)
Lemma fractions_to_counts_empty n : fractions_to_counts [] n = Raise IndexError.
Proof. reflexivity. Qed.

Lemma fractions_to_counts_sums_to_n_witness :
  exists counts,
    fractions_to_counts [f_3_16; f_3_16; f_1_16; f_half] 10 = Ok counts /\
    length counts = length [f_3_16; f_3_16; f_1_16; f_half] /\
    sum_ints counts = 10 /\
    (forall i, (S i < length [f_3_16; f_3_16; f_1_16; f_half])%nat ->
       let product :=
         SFmul 53 1024 (binary_normalize 53 1024 10 0 false)
               (nth i [f_3_16; f_3_16; f_1_16; f_half] PyFloat.one) in
       nearest_even (fst (float_ratio product)) (snd (float_ratio product))
                    (nth i counts 0)) /\
    last counts 0 = 10 - sum_ints (removelast counts).
Proof.
  apply (fractions_to_counts_sums_to_n [f_3_16; f_3_16; f_1_16; f_half] 10
           (S754_finite false 5629499534213120 (-49))).
  - discriminate.
  - vm_compute. reflexivity.
  - repeat constructor.
Defined.

(** The double product of 10 and 3/16 is 15/8, and 2 is the integer
    nearest to it. *)
Example product_10_by_3_16 :
  let product := SFmul 53 1024 (binary_normalize 53 1024 10 0 false) f_3_16 in
  fst (float_ratio product) * 8 = 15 * snd (float_ratio product) /\
  nearest_even (fst (float_ratio product)) (snd (float_ratio product)) 2.
Proof. vm_compute. repeat split; discriminate. Qed.

(** 10 * 3/16 = 1.875 rounds to 2, 10 * 1/16 = 0.625 to 1, and the last
    count is 10 - 5, where 10 * 1/2 alone would have given 5 as well. *)
Example fractions_to_counts_10 :
  fractions_to_counts [f_3_16; f_3_16; f_1_16; f_half] 10 = Ok [2; 2; 1; 5].
Proof. vm_compute. reflexivity. Qed.

(** The last count is what the others leave of [n]. *)
Lemma fractions_to_counts_last fracs n counts :
  fractions_to_counts fracs n = Ok counts ->
  last counts 0 = n - sum_ints (removelast counts).
Proof.
  intros H. apply fractions_to_counts_inv in H.
  destruct H as (rounded & _ & _ & ->).
  now rewrite last_last, removelast_last.
Qed.

(** C5. When the counts before the last already exceed the pool size,
    the last count is negative; this happens (five fractions of 3/16 and
    one of 1/16 on a pool of 8 give 2, 2, 2, 2, 2 and -2), and
    [split_data] on such a pool raises nothing: with these fractions on
    eight samples it returns, the last two splits being empty. *)
Theorem fractions_to_counts_negative_last_unguarded :
  (forall fracs m counts,
     fractions_to_counts fracs m = Ok counts ->
     m < sum_ints (removelast counts) ->
     last counts 0 < 0) /\
  (exists fracs m counts,
     fractions_to_counts fracs m = Ok counts /\
     m < sum_ints (removelast counts) /\
     last counts 0 < 0 /\
     forall (rng seed_t : Type) (random_seed : seed_t -> rng) random_shuffle
            seed g,
       split_data random_seed random_shuffle
                  [PyList (repeat tt (Z.to_nat m))] (map PyFloatV fracs)
                  false None true seed g =
       (Ok (Assignments [[0; 1]; [2; 3]; [4; 5]; [6; 7]; []; []]),
        match seed with Some s => random_seed s | None => g end)).
Proof.
  split.
  - intros fracs m counts H Hlt.
    rewrite (fractions_to_counts_last fracs m counts H). lia.
  - exists [f_3_16; f_3_16; f_3_16; f_3_16; f_3_16; f_1_16], 8,
           [2; 2; 2; 2; 2; -2].
    split; [vm_compute; reflexivity|].
    split; [vm_compute; reflexivity|].
    split; [vm_compute; reflexivity|].
    intros. reflexivity.
Qed.

Lemma fractions_to_counts_negative_last_unguarded_witness :
  last [2; 2; 2; 2; 2; -2] 0 < 0.
Proof.
  apply (proj1 fractions_to_counts_negative_last_unguarded
           [f_3_16; f_3_16; f_3_16; f_3_16; f_3_16; f_1_16] 8).
  - vm_compute. reflexivity.
  - vm_compute. reflexivity.
Defined.

(** The same with integer counts: 3, 3, 3, 1 on ten samples stratified
    into two pools of five give each pool the counts 2, 2, 2 and -1, and
    the call returns. *)
Example split_data_negative_count_stratified :
  fractions_to_counts
    [S754_finite false 5404319552844595 (-54);
     S754_finite false 5404319552844595 (-54);
     S754_finite false 5404319552844595 (-54);
     S754_finite false 7205759403792794 (-56)] 5 = Ok [2; 2; 2; -1] /\
  split_data Lcg.seed Lcg.shuffle [PyList (arange 10)]
             [PyInt 3; PyInt 3; PyInt 3; PyInt 1] false
             (Some [0; 0; 0; 0; 0; 1; 1; 1; 1; 1]) true None 7 =
  (Ok (Assignments [[1; 2; 6; 8]; [3; 4; 5; 7]; [0; 9]; []]), 715197717) /\
  resolve_fracs [PyInt 3; PyInt 3; PyInt 3; PyInt 1] 10 =
  Ok [S754_finite false 5404319552844595 (-54);
      S754_finite false 5404319552844595 (-54);
      S754_finite false 5404319552844595 (-54);
      S754_finite false 7205759403792794 (-56)].
Proof. repeat split; vm_compute; reflexivity. Qed.


(** ** Validation of the split specification *)

Section Validation.
Import PyFloat PyFloatFacts.

Lemma all_ints_length splits counts :
  all_ints splits = Some counts -> length counts = length splits.
Proof.
  revert counts; induction splits as [|[z|f|] splits IH]; simpl;
    intros counts H; try discriminate.
  - now injection H as <-.
  - destruct (all_ints splits); simpl in H; [|discriminate].
    injection H as <-. simpl. f_equal. now apply IH.
Qed.

Lemma all_floats_length splits fracs :
  all_floats splits = Some fracs -> length fracs = length splits.
Proof.
  revert fracs; induction splits as [|[z|f|] splits IH]; simpl;
    intros fracs H; try discriminate.
  - now injection H as <-.
  - destruct (all_floats splits); simpl in H; [|discriminate].
    injection H as <-. simpl. f_equal. now apply IH.
Qed.

(** Only the empty list is both all ints and all floats. *)
Lemma all_ints_all_floats splits counts fracs :
  all_ints splits = Some counts -> all_floats splits = Some fracs ->
  splits = [].
Proof. destruct splits as [|[z|f|] splits]; simpl; congruence. Qed.

Lemma fold_add_finite l acc :
  is_finite (fold_left add l acc) = true ->
  is_finite acc = true /\ Forall (fun f => is_finite f = true) l.
Proof.
  revert acc; induction l as [|f l IH]; simpl; intros acc H; auto.
  apply IH in H. destruct H as [H Hl].
  apply add_finite in H. destruct H. auto.
Qed.

(** Fractions that sum to 1.0 are finite. *)
Lemma sum_floats_one_finite fracs :
  eqb (sum_floats fracs) one = true ->
  Forall (fun f => is_finite f = true) fracs.
Proof.
  intros H. apply eqb_one_finite in H.
  now apply fold_add_finite in H.
Qed.

(** The fractions that come out of the validation are finite, one per
    entry. *)
Lemma resolve_fracs_finite splits n fracs :
  resolve_fracs splits n = Ok fracs ->
  Forall (fun f => is_finite f = true) fracs /\
  length fracs = length splits.
Proof.
  unfold resolve_fracs.
  destruct (all_ints splits) as [counts|] eqn:Hi.
  - destruct (sum_ints counts =? n); simpl; [|discriminate].
    intros H. split.
    + apply mapM_Forall2 in H. clear Hi.
      induction H as [|c f counts' fracs' Hf _ IH]; constructor; auto.
      now apply int_truediv_finite in Hf.
    + apply mapM_length in H. apply all_ints_length in Hi. congruence.
  - destruct (all_floats splits) as [fs|] eqn:Hf; [|discriminate].
    destruct (eqb (sum_floats fs) one) eqn:Hs; simpl; [|discriminate].
    injection 1 as <-. split.
    + now apply sum_floats_one_finite.
    + now apply all_floats_length.
Qed.

(** The validation raises a [ValueError] exactly on an invalid
    specification. *)
Lemma resolve_fracs_ValueError splits n :
  (exists e, resolve_fracs splits n = Raise (ValueError e)) <->
  ~ valid_spec splits n.
Proof.
  unfold resolve_fracs, valid_spec.
  destruct (all_ints splits) as [counts|] eqn:Hi.
  - destruct (Z.eqb_spec (sum_ints counts) n) as [Hs|Hs]; simpl.
    + split.
      * intros [e He]. exfalso.
        apply mapM_raises in He. destruct He as [c [_ Hc]].
        unfold int_truediv in Hc.
        destruct (n =? 0); [discriminate|].
        destruct (is_finite _); discriminate.
      * intros H. exfalso. apply H. left. eauto.
    + split; [|eauto]. intros _ [[counts' [Hc Hsum]]|[fracs [Hf Hone]]].
      * congruence.
      * rewrite (all_ints_all_floats splits counts fracs Hi Hf) in Hf.
        simpl in Hf. injection Hf as <-. discriminate.
  - destruct (all_floats splits) as [fracs|] eqn:Hf.
    + destruct (eqb (sum_floats fracs) one) eqn:Hs; simpl.
      * split; [intros [e He]; discriminate|].
        intros H. exfalso. apply H. right. eauto.
      * split; [|eauto]. intros _ [[counts [Hc _]]|[fracs' [Hf' Hone]]];
          congruence.
    + split; [|eauto]. intros _ [[counts [Hc _]]|[fracs [Hf' _]]];
        congruence.
Qed.

Lemma round_count_no_ValueError n frac e :
  is_finite frac = true -> round_count n frac <> Raise (ValueError e).
Proof.
  intros Hf. unfold round_count, int_mul.
  destruct (of_int n) as [x|e'] eqn:Hx; simpl.
  - intros H. apply round_to_int_ValueError in H.
    apply of_int_finite in Hx.
    exact (mul_finite_not_nan x frac Hx Hf H).
  - clear Hf. unfold of_int in Hx. destruct (is_finite _); congruence.
Qed.

Lemma fractions_to_counts_no_ValueError fracs n e :
  Forall (fun f => is_finite f = true) fracs ->
  fractions_to_counts fracs n <> Raise (ValueError e).
Proof.
  intros Hfin. unfold fractions_to_counts.
  destruct (mapM (round_count n) fracs) as [[|c counts]|e'] eqn:Hm; simpl;
    try discriminate.
  intros H. injection H as ->.
  apply mapM_raises in Hm. destruct Hm as [frac [Hin Hr]].
  rewrite Forall_forall in Hfin.
  exact (round_count_no_ValueError n frac e (Hfin frac Hin) Hr).
Qed.

End Validation.

Section SplitDataValidation.
Context {A : Type}.
Variables (rng seed_t : Type).
Variable random_seed : seed_t -> rng.
Variable random_shuffle : list Z -> rng -> list Z * rng.

Lemma assign_pools_no_ValueError sh fracs pools a g e g' :
  Forall (fun f => PyFloat.is_finite f = true) fracs ->
  assign_pools random_shuffle sh fracs pools a g <> (Raise (ValueError e), g').
Proof.
  intros Hfin. revert a g; induction pools as [|pool pools IH]; simpl;
    intros a g; [discriminate|].
  destruct (if sh then random_shuffle pool g else (pool, g)) as [p g1].
  destruct (fractions_to_counts fracs (Z.of_nat (length p))) as [counts|e']
    eqn:Hc; [apply IH|].
  intros H. injection H as -> _.
  exact (fractions_to_counts_no_ValueError fracs _ e Hfin Hc).
Qed.

(** C2. For inputs whose first collection has a length [n],
    [split_data] raises a [ValueError] exactly when the specification is
    not valid for [n]: all ints that do not sum to [n], all floats that
    do not sum to 1.0, and mixed entries each raise their own
    [ValueError], before the generator is used; all ints summing to [n]
    and all floats summing to 1.0 raise none. *)
Theorem split_data_ValueError_iff_invalid (inputs : list (ArrayLike A)) n
    splits shuffle stratify_by index_only seed g :
  sample_count inputs = Ok n ->
  let call := split_data random_seed random_shuffle inputs splits shuffle
                         stratify_by index_only seed g in
  let g0 := match seed with Some s => random_seed s | None => g end in
  ((exists e g', call = (Raise (ValueError e), g')) <->
   ~ valid_spec splits (Z.of_nat n)) /\
  (forall counts,
     all_ints splits = Some counts -> sum_ints counts <> Z.of_nat n ->
     call = (Raise (ValueError (SplitCountsSum (Z.of_nat n)
                                               (sum_ints counts))), g0)) /\
  (forall fracs,
     all_ints splits = None -> all_floats splits = Some fracs ->
     PyFloat.eqb (sum_floats fracs) PyFloat.one = false ->
     call = (Raise (ValueError (SplitFractionsSum (sum_floats fracs))), g0)) /\
  (all_ints splits = None -> all_floats splits = None ->
   call = (Raise (ValueError SplitsMixed), g0)).
Proof.
  intros Hn call g0. subst call g0.
  rewrite split_data_unfold, Hn. cbv zeta.
  split; [|split; [|split]].
  - rewrite <- resolve_fracs_ValueError.
    destruct (resolve_fracs splits (Z.of_nat n)) as [fracs|e0] eqn:Hr.
    + split; [|intros [e He]; discriminate].
      intros [e [g' H]]. exfalso.
      apply resolve_fracs_finite in Hr. destruct Hr as [Hfin _].
      destruct (assign_pools _ _ _ _ _ _) as [[a|e1] g1] eqn:Ha.
      * destruct index_only; [discriminate|].
        destruct (mapM _ inputs) as [outputs|e1] eqn:Hm.
        -- destruct outputs as [|? [|]]; discriminate.
        -- injection H as -> _.
           apply mapM_raises in Hm. destruct Hm as [d [_ Hd]].
           apply mapM_raises in Hd. destruct Hd as [idx [_ Hd]].
           exact (slice_data_no_ValueError d idx e Hd).
      * injection H as -> ->.
        exact (assign_pools_no_ValueError _ _ _ _ _ _ _ Hfin Ha).
    + split.
      * intros [e [g' H]]. injection H as -> _. eauto.
      * intros [e He]. injection He as ->. eauto.
  - intros counts Hi Hs. unfold resolve_fracs. rewrite Hi.
    destruct (Z.eqb_spec (sum_ints counts) (Z.of_nat n)); [contradiction|].
    reflexivity.
  - intros fracs Hi Hf Hs. unfold resolve_fracs. rewrite Hi, Hf, Hs.
    reflexivity.
  - intros Hi Hf. unfold resolve_fracs. rewrite Hi, Hf. reflexivity.
Qed.

End SplitDataValidation.

Lemma split_data_ValueError_iff_invalid_witness :
  ((exists e g',
      split_data Lcg.seed Lcg.shuffle [PyList [10; 11; 12]]
                 [PyInt 1; PyFloatV f_half] true None false None 0 =
      (Raise (ValueError e), g')) <->
   ~ valid_spec [PyInt 1; PyFloatV f_half] (Z.of_nat 3)) /\
  split_data Lcg.seed Lcg.shuffle [PyList [10; 11; 12]]
             [PyInt 1; PyInt 1] true None false None 0 =
    (Raise (ValueError (SplitCountsSum 3 2)), 0) /\
  split_data Lcg.seed Lcg.shuffle [PyList [10; 11; 12]]
             [PyFloatV f_half; PyFloatV f_1_16] true None false None 0 =
    (Raise (ValueError (SplitFractionsSum
              (S754_finite false 5066549580791808 (-53)))), 0) /\
  split_data Lcg.seed Lcg.shuffle [PyList [10; 11; 12]]
             [PyInt 1; PyFloatV f_half] true None false None 0 =
    (Raise (ValueError SplitsMixed), 0).
Proof.
  split; [|split; [|split]].
  - exact (proj1 (split_data_ValueError_iff_invalid Lcg.rng Z Lcg.seed
             Lcg.shuffle [PyList [10; 11; 12]] 3 [PyInt 1; PyFloatV f_half]
             true None false None 0 eq_refl)).
  - apply (proj1 (proj2 (split_data_ValueError_iff_invalid Lcg.rng Z Lcg.seed
             Lcg.shuffle [PyList [10; 11; 12]] 3 [PyInt 1; PyInt 1]
             true None false None 0 eq_refl)) [1; 1]).
    + reflexivity.
    + vm_compute. discriminate.
  - apply (proj1 (proj2 (proj2 (split_data_ValueError_iff_invalid Lcg.rng Z
             Lcg.seed Lcg.shuffle [PyList [10; 11; 12]] 3
             [PyFloatV f_half; PyFloatV f_1_16]
             true None false None 0 eq_refl))) [f_half; f_1_16]).
    + reflexivity.
    + reflexivity.
    + vm_compute. reflexivity.
  - apply (proj2 (proj2 (proj2 (split_data_ValueError_iff_invalid Lcg.rng Z
             Lcg.seed Lcg.shuffle [PyList [10; 11; 12]] 3
             [PyInt 1; PyFloatV f_half]
             true None false None 0 eq_refl)))).
    + reflexivity.
    + reflexivity.
Defined.

(** The scenarios of the specification: halves of ten samples and
    thirds of nine are accepted, counts 3 and 3 for ten samples are not. *)
Example split_data_scenarios :
  split_data Lcg.seed Lcg.shuffle [PyList (arange 10)]
             [PyFloatV f_half; PyFloatV f_half] false None true (Some 1) 0 =
    (Ok (Assignments [[0; 1; 2; 3; 4]; [5; 6; 7; 8; 9]]), 1) /\
  split_data Lcg.seed Lcg.shuffle [PyList (arange 9)]
             [PyInt 3; PyInt 3; PyInt 3] true None true None 7 =
    (Ok (Assignments [[0; 6; 8]; [4; 1; 3]; [2; 7; 5]]), 523310796) /\
  split_data Lcg.seed Lcg.shuffle [PyList (arange 10)]
             [PyInt 3; PyInt 3] true None true None 7 =
    (Raise (ValueError (SplitCountsSum 10 6)), 7).
Proof. repeat split; vm_compute; reflexivity. Qed.


(** ** Index assignments are a partition *)

Section PoolSlices.

Lemma py_slice_app_skipn {B} (l : list B) a c :
  0 <= a -> 0 <= c ->
  py_slice l a (a + c) ++ skipn (Z.to_nat (a + c)) l = skipn (Z.to_nat a) l.
Proof.
  intros Ha Hc. unfold py_slice, slice_bound.
  destruct (Z.ltb_spec a 0); [lia|].
  destruct (Z.ltb_spec (a + c) 0); [lia|].
  set (len := Z.of_nat (length l)).
  destruct (Z.le_gt_cases len a) as [Hla|Hla].
  - rewrite !Z.min_r by lia. rewrite Z.sub_diag. simpl.
    rewrite !skipn_all2 by lia. reflexivity.
  - rewrite (Z.min_l a) by lia.
    destruct (Z.le_gt_cases len (a + c)) as [Hlc|Hlc].
    + rewrite Z.min_r by lia.
      rewrite (skipn_all2 (n := Z.to_nat (a + c))) by lia.
      rewrite app_nil_r. apply firstn_all2. rewrite length_skipn. lia.
    + rewrite Z.min_l by lia.
      replace (Z.to_nat (a + c)) with (Z.to_nat (a + c - a) + Z.to_nat a)%nat
        by lia.
      rewrite <- skipn_skipn. apply firstn_skipn.
Qed.

Lemma py_slice_to_end {B} (l : list B) a :
  0 <= a -> py_slice l a (Z.of_nat (length l)) = skipn (Z.to_nat a) l.
Proof.
  intros Ha. unfold py_slice, slice_bound.
  destruct (Z.ltb_spec a 0); [lia|].
  destruct (Z.ltb_spec (Z.of_nat (length l)) 0); [lia|].
  rewrite Z.min_id.
  destruct (Z.le_gt_cases (Z.of_nat (length l)) a).
  - rewrite Z.min_r by lia. rewrite Z.sub_diag. simpl.
    rewrite skipn_all2 by lia. reflexivity.
  - rewrite Z.min_l by lia. apply firstn_all2. rewrite length_skipn. lia.
Qed.

(** Counts that are not negative, followed by what they leave of the
    pool, cut the pool from [start] on into consecutive pieces. *)
Lemma pool_slices_concat pool init start :
  0 <= start -> Forall (fun c => 0 <= c) init ->
  concat (pool_slices pool start
            (init ++ [Z.of_nat (length pool) - start - sum_ints init])) =
  skipn (Z.to_nat start) pool.
Proof.
  intros Hs Hinit; revert start Hs.
  induction Hinit as [|c init Hc _ IH]; intros start Hs; simpl.
  - change (sum_ints []) with 0. rewrite app_nil_r.
    replace (start + (Z.of_nat (length pool) - start - 0))
      with (Z.of_nat (length pool)) by lia.
    now apply py_slice_to_end.
  - rewrite sum_ints_cons.
    replace (Z.of_nat (length pool) - start - (c + sum_ints init))
      with (Z.of_nat (length pool) - (start + c) - sum_ints init) by lia.
    rewrite IH by lia. now apply py_slice_app_skipn.
Qed.

Lemma length_pool_slices pool start counts :
  length (pool_slices pool start counts) = length counts.
Proof.
  revert start; induction counts as [|c counts IH]; simpl; intros start; auto.
Qed.

(** The loop over [range(num_splits)] appends to each assignment its
    slice of the pool. *)
Lemma extend_assignments_from pool a counts start pre :
  length a = length counts ->
  map (fun '(i, x) =>
         x ++ py_slice pool
                (nth i (pre ++ start :: cumsum_from start counts) 0)
                (nth (S i) (pre ++ start :: cumsum_from start counts) 0))
      (combine (seq (length pre) (length a)) a) =
  map (fun '(x, s) => x ++ s) (combine a (pool_slices pool start counts)).
Proof.
  revert counts start pre; induction a as [|x a IH];
    intros [|c counts] start pre Hlen; simpl in *; try discriminate; auto.
  f_equal.
  - rewrite nth_middle.
    replace (pre ++ start :: start + c :: cumsum_from (start + c) counts)
      with ((pre ++ [start]) ++ start + c :: cumsum_from (start + c) counts)
      by (now rewrite <- app_assoc).
    replace (S (length pre)) with (length (pre ++ [start]))
      by (rewrite length_app; simpl; lia).
    now rewrite nth_middle.
  - replace (pre ++ start :: start + c :: cumsum_from (start + c) counts)
      with ((pre ++ [start]) ++ start + c :: cumsum_from (start + c) counts)
      by (now rewrite <- app_assoc).
    replace (S (length pre)) with (length (pre ++ [start]))
      by (rewrite length_app; simpl; lia).
    apply IH. lia.
Qed.

Lemma extend_assignments_slices pool a counts :
  length a = length counts ->
  extend_assignments a pool (cumsum (0 :: counts)) =
  map (fun '(x, s) => x ++ s) (combine a (pool_slices pool 0 counts)).
Proof.
  intros Hlen. unfold extend_assignments, cumsum.
  exact (extend_assignments_from pool a counts 0 [] Hlen).
Qed.

Lemma concat_zip_app {B} (a ss : list (list B)) :
  length a = length ss ->
  Permutation (concat (map (fun '(x, s) => x ++ s) (combine a ss)))
              (concat a ++ concat ss).
Proof.
  revert ss; induction a as [|x a IH]; intros [|s ss] Hlen; simpl in *;
    try discriminate; auto.
  rewrite <- !app_assoc. apply Permutation_app_head.
  rewrite IH by lia.
  rewrite !app_assoc. apply Permutation_app_tail, Permutation_app_comm.
Qed.

End PoolSlices.

Section Pools.

Lemma dict_append_concat d val i :
  Permutation (concat (map snd (dict_append d val i)))
              (i :: concat (map snd d)).
Proof.
  induction d as [|[k v] d IH]; simpl; auto.
  destruct (k =? val); simpl.
  - rewrite <- app_assoc. simpl. symmetry. apply Permutation_middle.
  - rewrite IH. symmetry. apply Permutation_middle.
Qed.

Lemma fold_dict_append_concat (l : list (Z * Z)) d :
  Permutation
    (concat (map snd (fold_left (fun d '(i, val) => dict_append d val i) l d)))
    (map fst l ++ concat (map snd d)).
Proof.
  revert d; induction l as [|[i val] l IH]; intros d; simpl; auto.
  rewrite IH, dict_append_concat. symmetry. apply Permutation_middle.
Qed.

Lemma map_fst_enumerate {B} (l : list B) :
  map fst (enumerate l) = arange (length l).
Proof.
  unfold enumerate, arange. generalize 0%nat.
  induction l as [|b l IH]; intros s; simpl; auto.
  f_equal. apply IH.
Qed.

(** The pools of a stratification hold every position once. *)
Lemma make_pools_concat labels :
  Permutation (concat (make_pools labels)) (arange (length labels)).
Proof.
  unfold make_pools. rewrite fold_dict_append_concat. simpl.
  now rewrite app_nil_r, map_fst_enumerate.
Qed.

Lemma arange_NoDup n : NoDup (arange n).
Proof.
  unfold arange. apply NoDup_map_NoDup_ForallPairs; [|apply seq_NoDup].
  intros x y _ _. apply Nat2Z.inj.
Qed.

Lemma arange_In n i : In i (arange n) <-> 0 <= i < Z.of_nat n.
Proof.
  unfold arange. rewrite in_map_iff. split.
  - intros [p [<- Hp]]. apply in_seq in Hp. lia.
  - intros Hi. exists (Z.to_nat i). rewrite in_seq. lia.
Qed.

Lemma NoDup_app_disjoint {B} (l1 l2 : list B) x :
  NoDup (l1 ++ l2) -> In x l1 -> In x l2 -> False.
Proof.
  induction l1 as [|b l1 IH]; simpl; intros Hnd H1 H2; [contradiction|].
  inversion Hnd as [|? ? Hb Hnd']; subst.
  destruct H1 as [->|H1]; auto.
  apply Hb, in_or_app. auto.
Qed.

Lemma NoDup_concat_disjoint {B} (a : list (list B)) i j x :
  NoDup (concat a) -> i <> j ->
  In x (nth i a []) -> In x (nth j a []) -> False.
Proof.
  revert i j; induction a as [|l a IH]; intros i j Hnd Hij Hi Hj.
  - destruct i; contradiction.
  - simpl in Hnd.
    pose proof (fun y => NoDup_app_disjoint l (concat a) y Hnd) as Hdis.
    apply NoDup_app_remove_l in Hnd.
    assert (Hnth : forall k, In x (nth k a []) -> In x (concat a)).
    { intros k Hk. apply in_concat. exists (nth k a []). split; auto.
      destruct (Nat.lt_ge_cases k (length a)) as [Hlt|Hge].
      - now apply nth_In.
      - rewrite nth_overflow in Hk by lia. contradiction. }
    destruct i as [|i], j as [|j]; simpl in *.
    + congruence.
    + exact (Hdis x Hi (Hnth j Hj)).
    + exact (Hdis x Hj (Hnth i Hi)).
    + apply (IH i j); auto.
Qed.

End Pools.

Section NonNegative.
Import PyFloat PyFloatFacts.

Lemma round_count_nonneg n frac c :
  0 <= n -> is_nonneg frac = true -> round_count n frac = Ok c -> 0 <= c.
Proof.
  intros Hn Hf. unfold round_count, int_mul.
  destruct (of_int n) as [x|] eqn:Hx; simpl; [|discriminate].
  apply (of_int_nonneg n x Hn) in Hx.
  destruct (mul_nonneg x frac Hx Hf) as [Hnan|Hnn].
  - rewrite Hnan. discriminate.
  - now apply round_to_int_nonneg.
Qed.

Lemma all_ints_nonneg splits counts :
  all_ints splits = Some counts -> Forall nonneg_entry splits ->
  Forall (fun c => 0 <= c) counts.
Proof.
  revert counts; induction splits as [|[z|f|] splits IH]; simpl;
    intros counts H Hnn; try discriminate.
  - injection H as <-. constructor.
  - destruct (all_ints splits); simpl in H; [|discriminate].
    injection H as <-. inversion Hnn; subst. constructor; auto.
Qed.

Lemma all_floats_nonneg splits fracs :
  all_floats splits = Some fracs -> Forall nonneg_entry splits ->
  Forall (fun f => is_nonneg f = true) fracs.
Proof.
  revert fracs; induction splits as [|[z|f|] splits IH]; simpl;
    intros fracs H Hnn; try discriminate.
  - injection H as <-. constructor.
  - destruct (all_floats splits); simpl in H; [|discriminate].
    injection H as <-. inversion Hnn; subst. constructor; auto.
Qed.

(** A specification without negative entries resolves to fractions
    without a negative one. *)
Lemma resolve_fracs_nonneg splits n fracs :
  0 <= n -> Forall nonneg_entry splits ->
  resolve_fracs splits n = Ok fracs ->
  Forall (fun f => is_nonneg f = true) fracs.
Proof.
  intros Hn Hnn. unfold resolve_fracs.
  destruct (all_ints splits) as [counts|] eqn:Hi.
  - destruct (sum_ints counts =? n); simpl; [|discriminate].
    intros H. apply mapM_Forall2 in H.
    pose proof (all_ints_nonneg splits counts Hi Hnn) as Hc. clear Hi.
    induction H as [|c f counts' fracs' Hf _ IH]; constructor.
    + inversion Hc; subst.
      assert (n <> 0).
      { intros ->. unfold int_truediv in Hf. discriminate. }
      apply (int_truediv_nonneg c n); auto. lia.
    + apply IH. now inversion Hc.
  - destruct (all_floats splits) as [fs|] eqn:Hf; [|discriminate].
    destruct (eqb (sum_floats fs) one); simpl; [|discriminate].
    injection 1 as <-. now apply (all_floats_nonneg splits).
Qed.

Lemma Forall_removelast {B} (P : B -> Prop) l :
  Forall P l -> Forall P (removelast l).
Proof.
  destruct l as [|b l] using rev_ind; auto.
  rewrite removelast_last. intros H. apply Forall_app in H. tauto.
Qed.

(** The counts of fractions without a negative one: all but the last are
    not negative, and the last is what they leave of [n]. *)
Lemma fractions_to_counts_nonneg fracs n counts :
  0 <= n -> Forall (fun f => is_nonneg f = true) fracs ->
  fractions_to_counts fracs n = Ok counts ->
  exists init,
    counts = init ++ [n - sum_ints init] /\
    Forall (fun c => 0 <= c) init /\
    length counts = length fracs.
Proof.
  intros Hn Hnn H. apply fractions_to_counts_inv in H.
  destruct H as (rounded & Hm & Hne & ->).
  exists (removelast rounded). split; [reflexivity|].
  pose proof (mapM_length _ _ _ Hm) as Hlen.
  apply mapM_Forall2 in Hm. split.
  - apply Forall_removelast.
    clear Hne Hlen. induction Hm as [|f c fracs' rounded' Hc _ IH];
      constructor.
    + inversion Hnn; subst. now apply (round_count_nonneg n f).
    + apply IH. now inversion Hnn.
  - rewrite length_app, length_removelast. simpl.
    destruct rounded; simpl in *; [congruence|lia].
Qed.

End NonNegative.

Section SplitDataPartition.
Context {A : Type}.
Variables (rng seed_t : Type).
Variable random_seed : seed_t -> rng.
Variable random_shuffle : list Z -> rng -> list Z * rng.

(** [random.shuffle] rearranges the list it is given. *)
Hypothesis random_shuffle_perm :
  forall l g, Permutation (fst (random_shuffle l g)) l.

Lemma concat_repeat_nil {B} k : concat (repeat (@nil B) k) = [].
Proof. induction k; simpl; auto. Qed.

(** Each pool goes whole into the assignments. *)
Lemma assign_pools_concat sh fracs pools a g a' g' :
  Forall (fun f => PyFloat.is_nonneg f = true) fracs ->
  length a = length fracs ->
  assign_pools random_shuffle sh fracs pools a g = (Ok a', g') ->
  Permutation (concat a') (concat a ++ concat pools).
Proof.
  intros Hnn. revert a g; induction pools as [|pool pools IH]; simpl;
    intros a g Hlen H.
  - inversion H; subst. now rewrite app_nil_r.
  - assert (Hsh : exists p g1,
              (if sh then random_shuffle pool g else (pool, g)) = (p, g1) /\
              Permutation p pool).
    { destruct sh.
      - pose proof (random_shuffle_perm pool g) as Hp.
        destruct (random_shuffle pool g) as [p g1]. eauto.
      - eauto. }
    destruct Hsh as (p & g1 & Hsh & Hp). rewrite Hsh in H.
    destruct (fractions_to_counts fracs (Z.of_nat (length p)))
      as [counts|] eqn:Hc; [|discriminate].
    apply fractions_to_counts_nonneg in Hc; auto; [|lia].
    destruct Hc as (init & -> & Hinit & Hl).
    apply IH in H; [|now rewrite length_extend_assignments].
    rewrite H, extend_assignments_slices by congruence.
    rewrite concat_zip_app by (rewrite length_pool_slices; congruence).
    replace (Z.of_nat (length p) - sum_ints init)
      with (Z.of_nat (length p) - 0 - sum_ints init) by lia.
    rewrite pool_slices_concat by (auto; lia).
    change (skipn (Z.to_nat 0) p) with p.
    now rewrite Hp, <- app_assoc.
Qed.

(** The index lists that a call returns, for a specification without a
    negative entry: one per entry, pairwise disjoint, without a repeated
    index, and holding together exactly 0, ..., n-1. *)
Lemma returned_assignments_partition (inputs : list (ArrayLike A)) n splits shuffle
    stratify_by seed g assignments g' :
  sample_count inputs = Ok n ->
  Forall nonneg_entry splits ->
  (forall labels, stratify_by = Some labels -> length labels = n) ->
  split_data random_seed random_shuffle inputs splits shuffle stratify_by
             true seed g = (Ok (Assignments assignments), g') ->
  length assignments = length splits /\
  (forall i j x, i <> j ->
     In x (nth i assignments []) -> In x (nth j assignments []) -> False) /\
  NoDup (concat assignments) /\
  (forall x, In x (concat assignments) <-> 0 <= x < Z.of_nat n).
Proof.
  intros Hn Hnn Hlabels. rewrite split_data_unfold, Hn. cbv zeta.
  destruct (resolve_fracs splits (Z.of_nat n)) as [fracs|] eqn:Hr;
    [|discriminate].
  destruct (assign_pools _ _ _ _ _ _) as [[a|e] g1] eqn:Ha; [|discriminate].
  intros H. injection H as -> _.
  pose proof (resolve_fracs_nonneg splits _ fracs (Nat2Z.is_nonneg n) Hnn Hr)
    as Hfn.
  apply resolve_fracs_finite in Hr. destruct Hr as [_ Hlen].
  pose proof (assign_pools_length _ _ _ _ _ _ _ _ _ Ha) as Hla.
  rewrite repeat_length in Hla.
  apply assign_pools_concat in Ha; auto;
    [|now rewrite repeat_length].
  rewrite concat_repeat_nil in Ha. simpl in Ha.
  assert (Hperm : Permutation (concat assignments) (arange n)).
  { rewrite Ha. destruct stratify_by as [labels|].
    - rewrite make_pools_concat. now rewrite (Hlabels labels eq_refl).
    - simpl. now rewrite app_nil_r. }
  assert (Hnd : NoDup (concat assignments)).
  { apply (Permutation_NoDup (Permutation_sym Hperm)), arange_NoDup. }
  split; [exact Hla|]. split; [|split; [exact Hnd|]].
  - intros i j x Hij. now apply NoDup_concat_disjoint.
  - intros x. rewrite <- arange_In. split; apply Permutation_in; auto.
    now symmetry.
Qed.

End SplitDataPartition.

(** The validation does not look at signs: counts 2, -2 and 4 sum to
    four samples and are accepted, the counts of the pool are 2, -2 and
    4, and the first and the third index list overlap. *)
Example split_data_negative_entry_overlaps :
  split_data Lcg.seed Lcg.shuffle [PyList [10; 11; 12; 13]]
             [PyInt 2; PyInt (-2); PyInt 4] false None true None 0 =
  (Ok (Assignments [[0; 1]; []; [0; 1; 2; 3]]), 0).
Proof. vm_compute. reflexivity. Qed.

(** The shuffle of the concrete generator rearranges its list. *)
Lemma Lcg_draw_cons fuel x l g :
  Lcg.draw (S fuel) (x :: l) g =
  let '(j, g1) := Lcg.randbelow (length (x :: l)) g in
  let '(rest, g') :=
    Lcg.draw fuel (firstn j (x :: l) ++ skipn (S j) (x :: l)) g1 in
  (nth j (x :: l) x :: rest, g').
Proof. reflexivity. Qed.

Lemma Lcg_draw_perm fuel : forall l g,
  fuel = length l -> Permutation (fst (Lcg.draw fuel l g)) l.
Proof.
  induction fuel as [|fuel IH]; intros [|x l] g Hlen; simpl in Hlen;
    try discriminate.
  - reflexivity.
  - rewrite Lcg_draw_cons. unfold Lcg.randbelow.
    remember (x :: l) as xs eqn:Hxs.
    set (j := Z.to_nat (Lcg.next g mod Z.of_nat (length xs))).
    assert (Hj : (j < length xs)%nat).
    { pose proof (Z.mod_pos_bound (Lcg.next g) (Z.of_nat (length xs))).
      subst j xs. simpl length in *. lia. }
    destruct (nth_error xs j) as [y|] eqn:Hy;
      [|apply nth_error_None in Hy; lia].
    pose proof (firstn_skipn_middle _ _ Hy) as Hmid.
    rewrite (nth_error_nth _ _ x Hy).
    pose proof (IH (firstn j xs ++ skipn (S j) xs) (Lcg.next g)) as Hp.
    destruct (Lcg.draw fuel _ (Lcg.next g)) as [rest g1]. simpl fst in *.
    apply Permutation_trans with (y :: firstn j xs ++ skipn (S j) xs).
    + constructor. apply Hp.
      apply (f_equal (@length Z)) in Hmid. rewrite length_app in *.
      subst xs. simpl length in *. lia.
    + rewrite Permutation_middle, Hmid. reflexivity.
Qed.

Lemma Lcg_shuffle_perm l g : Permutation (fst (Lcg.shuffle l g)) l.
Proof. now apply Lcg_draw_perm. Qed.


(** ** Magnitudes of doubles

    Bounds on the exponent and on the magnitude (number of bits of the
    mantissa plus exponent) of what the rounding returns, to show that
    the conversions and products of [fractions_to_counts] stay finite. *)

Module PyFloatBounds.
Import PyFloat PyFloatFacts.

Lemma digits2_pos_size p : digits2_pos p = Pos.size p.
Proof. induction p; simpl; congruence. Qed.

Lemma Zdigits2_nonneg v : 0 <= Zdigits2 v.
Proof. destruct v; simpl; lia. Qed.

Lemma Zdigits2_lt_pow v : 0 <= v -> v < 2 ^ Zdigits2 v.
Proof.
  destruct v as [|p|p]; simpl; try lia. intros _.
  rewrite digits2_pos_size.
  pose proof (Pos.size_gt p) as H.
  apply Pos2Z.pos_lt_pos in H. now rewrite Pos2Z.inj_pow in H.
Qed.

Lemma Zdigits2_le v k : 0 <= v -> 0 <= k -> v < 2 ^ k -> Zdigits2 v <= k.
Proof.
  destruct v as [|p|p]; simpl; try lia. intros _ Hk Hlt.
  rewrite digits2_pos_size.
  pose proof (Pos.size_le p) as H.
  apply Pos2Z.pos_le_pos in H. rewrite Pos2Z.inj_pow in H.
  change (Z.pos p~0) with (2 * Z.pos p) in H.
  destruct (Z.le_gt_cases (Z.pos (Pos.size p)) k) as [|Hgt]; auto.
  exfalso.
  assert (2 ^ (k + 1) <= 2 ^ Z.pos (Pos.size p))
    by (apply Z.pow_le_mono_r; lia).
  rewrite Z.pow_add_r in * by lia. lia.
Qed.

Lemma shr_1_div2 mrs : 0 <= shr_m mrs -> shr_m (shr_1 mrs) = shr_m mrs / 2.
Proof.
  destruct mrs as [m r s].
  destruct m as [|[p|p|]|p]; cbn -[Z.div]; try lia; intros _.
  all: try (apply Z.div_unique with 1; lia).
  all: try (apply Z.div_unique with 0; lia).
  all: try reflexivity.
Qed.

Lemma iter_shr_1_div n : forall mrs,
  0 <= shr_m mrs ->
  shr_m (iter_pos shr_1 n mrs) = shr_m mrs / 2 ^ Z.pos n.
Proof.
  assert (Hnn : forall k mrs, 0 <= shr_m mrs -> 0 <= shr_m (iter_pos shr_1 k mrs)).
  { intros k mrs H. apply (iter_pos_invariant (fun x => 0 <= shr_m x)); auto.
    apply shr_1_nonneg. }
  induction n as [n IH|n IH|]; cbn [iter_pos]; intros mrs H.
  - rewrite IH by (apply Hnn, shr_1_nonneg, H).
    rewrite IH by (apply shr_1_nonneg, H).
    rewrite shr_1_div2 by exact H.
    rewrite !Z.div_div by (try apply Z.pow_pos_nonneg; lia).
    f_equal.
    rewrite <- Z.pow_add_r, <- Z.pow_succ_r by lia. f_equal. lia.
  - rewrite IH by (apply Hnn, H). rewrite IH by exact H.
    rewrite Z.div_div by (try apply Z.pow_pos_nonneg; lia).
    f_equal. rewrite <- Z.pow_add_r by lia. f_equal. lia.
  - now apply shr_1_div2.
Qed.

(** What [shr_fexp] returns on a mantissa that is not negative. *)
Lemma shr_fexp_spec m e l :
  0 <= m ->
  let e' := Z.max e (fexp prec emax (Zdigits2 m + e)) in
  snd (shr_fexp prec emax m e l) = e' /\
  shr_m (fst (shr_fexp prec emax m e l)) = m / 2 ^ (e' - e).
Proof.
  intros Hm e'. unfold shr_fexp, shr.
  assert (Hrec : shr_m (shr_record_of_loc m l) = m)
    by (destruct l as [|[]]; reflexivity).
  destruct (fexp prec emax (Zdigits2 m + e) - e) as [|p|p] eqn:Hd; simpl.
  - subst e'. rewrite Z.max_l by lia. rewrite Z.sub_diag, Z.div_1_r.
    auto.
  - subst e'. rewrite Z.max_r by lia. split; [lia|].
    rewrite iter_shr_1_div by lia. rewrite Hrec. f_equal. f_equal. lia.
  - subst e'. rewrite Z.max_l by lia. rewrite Z.sub_diag, Z.div_1_r.
    auto.
Qed.

Lemma Zdigits2_div_pow m k e :
  0 <= m -> 0 <= k ->
  Zdigits2 (m / 2 ^ k) + (e + k) <= Z.max (Zdigits2 m + e) (e + k).
Proof.
  intros Hm Hk.
  pose proof (Zdigits2_lt_pow m Hm) as Hlt.
  pose proof (Zdigits2_nonneg m) as Hd.
  assert (H2k : 0 < 2 ^ k) by (apply Z.pow_pos_nonneg; lia).
  destruct (Z.le_gt_cases k (Zdigits2 m)) as [Hle|Hgt].
  - assert (Zdigits2 (m / 2 ^ k) <= Zdigits2 m - k); [|lia].
    apply Zdigits2_le; [apply Z.div_pos; lia|lia|].
    apply Z.div_lt_upper_bound; [lia|].
    rewrite <- Z.pow_add_r by lia.
    now replace (k + (Zdigits2 m - k)) with (Zdigits2 m) by lia.
  - assert (m / 2 ^ k = 0) as ->; [|simpl; lia].
    apply Z.div_small. split; [lia|].
    apply Z.lt_le_trans with (2 ^ Zdigits2 m); auto.
    apply Z.pow_le_mono_r; lia.
Qed.

Lemma round_nearest_even_le m l :
  0 <= m -> m <= round_nearest_even m l <= m + 1.
Proof.
  intros H. destruct l as [|[]]; simpl; try lia.
  destruct (Z.even m); lia.
Qed.

Lemma Zdigits2_succ m v :
  0 <= m -> 0 <= v <= m + 1 -> Zdigits2 v <= Zdigits2 m + 1.
Proof.
  intros Hm Hv.
  pose proof (Zdigits2_lt_pow m Hm). pose proof (Zdigits2_nonneg m).
  apply Zdigits2_le; try lia.
  rewrite Z.pow_add_r by lia. lia.
Qed.

(** Rounding a mantissa whose exponent and magnitude leave room stays
    finite, and raises the magnitude by one at most. *)
Lemma binary_round_aux_bounds sx mx ex lx :
  0 <= mx -> ex <= emax - prec -> Zdigits2 mx + ex <= emax - 2 ->
  match binary_round_aux prec emax sx mx ex lx with
  | S754_zero _ => True
  | S754_finite _ m e =>
      Zdigits2 (Z.pos m) + e <= Z.max (Zdigits2 mx + ex) (emin prec emax) + 1
      /\ e <= Z.max ex (Z.max (Zdigits2 mx + ex - prec + 1) (emin prec emax))
  | _ => False
  end.
Proof.
  intros Hm He Hmag. unfold binary_round_aux.
  pose proof (shr_fexp_spec mx ex lx Hm) as H1. cbv zeta in H1.
  pose proof (shr_fexp_nonneg mx ex lx Hm) as Hn1.
  destruct (shr_fexp prec emax mx ex lx) as [mrs' e']. simpl in H1, Hn1.
  destruct H1 as [He' Hm'].
  set (m2 := round_nearest_even (shr_m mrs') (loc_of_shr_record mrs')).
  pose proof (round_nearest_even_le (shr_m mrs') (loc_of_shr_record mrs') Hn1)
    as Hr. fold m2 in Hr.
  assert (Hm2 : 0 <= m2) by lia.
  pose proof (shr_fexp_spec m2 e' loc_Exact Hm2) as H2. cbv zeta in H2.
  pose proof (shr_fexp_nonneg m2 e' loc_Exact Hm2) as Hn2.
  destruct (shr_fexp prec emax m2 e' loc_Exact) as [mrs'' e'']. simpl in H2, Hn2.
  destruct H2 as [He'' Hm''].
  (* magnitudes *)
  rewrite <- He' in Hm'.
  assert (Hd1 : Zdigits2 (shr_m mrs') + e' <= Z.max (Zdigits2 mx + ex) e').
  { pose proof (Zdigits2_div_pow mx (e' - ex) ex Hm) as Hd.
    rewrite <- Hm' in Hd. replace (ex + (e' - ex)) with e' in Hd by lia.
    apply Hd. lia. }
  assert (Hd2 : Zdigits2 m2 <= Zdigits2 (shr_m mrs') + 1)
    by (apply Zdigits2_succ; lia).
  rewrite <- He'' in Hm''.
  assert (Hd3 : Zdigits2 (shr_m mrs'') + e'' <= Z.max (Zdigits2 m2 + e') e'').
  { pose proof (Zdigits2_div_pow m2 (e'' - e') e' Hm2) as Hd.
    rewrite <- Hm'' in Hd. replace (e' + (e'' - e')) with e'' in Hd by lia.
    apply Hd. lia. }
  pose proof (Zdigits2_nonneg mx).
  unfold fexp, emin, prec, emax in *.
  destruct (shr_m mrs'') as [|m|m] eqn:Hs; try lia; auto.
  destruct (Z.leb_spec e'' (1024 - 53)); [|lia].
  change (Zdigits2 (Z.pos m)) with (Z.pos (digits2_pos m)) in *.
  lia.
Qed.

Lemma digits2_pos_iter_xO d : forall p,
  Z.pos (digits2_pos (Pos.iter xO p d)) = Z.pos (digits2_pos p) + Z.pos d.
Proof.
  induction d as [|d IH] using Pos.peano_ind; intros p.
  - simpl. lia.
  - rewrite Pos.iter_succ. simpl digits2_pos. rewrite Pos2Z.inj_succ, IH. lia.
Qed.

(** Aligning a mantissa keeps its magnitude and does not raise its
    exponent. *)
Lemma shl_align_spec mx ex ex' :
  let '(mz, ez) := shl_align mx ex ex' in
  Z.pos (digits2_pos mz) + ez = Z.pos (digits2_pos mx) + ex /\
  ez = Z.min ex ex'.
Proof.
  unfold shl_align. destruct (ex' - ex) as [|d|d] eqn:Hd.
  - split; lia.
  - split; lia.
  - rewrite digits2_pos_iter_xO. split; lia.
Qed.

Lemma binary_round_bounds sx mx ex :
  ex <= emax - prec -> Z.pos (digits2_pos mx) + ex <= emax - 2 ->
  match binary_round prec emax sx mx ex with
  | S754_zero _ => True
  | S754_finite _ m e =>
      Z.pos (digits2_pos m) + e <=
        Z.max (Z.pos (digits2_pos mx) + ex) (emin prec emax) + 1 /\
      e <= Z.max ex (Z.max (Z.pos (digits2_pos mx) + ex - prec + 1)
                           (emin prec emax))
  | _ => False
  end.
Proof.
  intros He Hmag. unfold binary_round.
  pose proof (shl_align_spec mx ex
                (fexp prec emax (Z.pos (digits2_pos mx) + ex))) as Hs.
  destruct (shl_align mx ex _) as [mz ez]. destruct Hs as [Hd Hez].
  pose proof (binary_round_aux_bounds sx (Z.pos mz) ez loc_Exact) as Hb.
  simpl Zdigits2 in Hb.
  assert (Hb' := Hb ltac:(lia) ltac:(lia) ltac:(lia)). clear Hb.
  destruct (binary_round_aux prec emax sx (Z.pos mz) ez loc_Exact); auto.
  destruct Hb' as [H1 H2]. split; lia.
Qed.

(** The double of an int below [2^k], for [k] up to 1000. *)
Lemma of_int_bounds z k :
  0 <= z < 2 ^ k -> 0 <= k <= 1000 ->
  exists x, of_int z = Ok x /\
    match x with
    | S754_zero _ => True
    | S754_finite s m e =>
        s = false /\ Z.pos (digits2_pos m) + e <= k + 1 /\ e <= Z.max 0 (k - 52)
    | _ => False
    end.
Proof.
  intros Hz Hk. unfold of_int.
  destruct z as [|p|p]; try lia.
  - exists (S754_zero false). split; [reflexivity|exact I].
  - assert (Hd : Z.pos (digits2_pos p) <= k).
    { apply (Zdigits2_le (Z.pos p)); lia. }
    simpl binary_normalize.
    pose proof (binary_round_bounds false p 0) as Hb.
    pose proof (binary_round_aux_sign false) as Hsign.
    unfold binary_round in *.
    destruct (shl_align p 0 _) as [mz ez].
    specialize (Hsign (Z.pos mz) ez loc_Exact).
    unfold emin, emax, prec in *.
    assert (Hb' := Hb ltac:(lia) ltac:(lia)). clear Hb.
    destruct (binary_round_aux 53 1024 false (Z.pos mz) ez loc_Exact)
      as [s|s| |s m e]; cbn [is_finite]; try contradiction.
    + eauto.
    + eexists. split; [reflexivity|]. destruct Hb' as [H1 H2].
      simpl in Hsign. repeat split; [exact Hsign|lia|lia].
Qed.

Lemma digits2_pos_mul p q :
  Z.pos (digits2_pos (p * q)) <= Z.pos (digits2_pos p) + Z.pos (digits2_pos q).
Proof.
  apply (Zdigits2_le (Z.pos (p * q))); try lia.
  pose proof (Zdigits2_lt_pow (Z.pos p)) as Hp.
  pose proof (Zdigits2_lt_pow (Z.pos q)) as Hq.
  simpl Zdigits2 in *. rewrite Z.pow_add_r by lia.
  rewrite Pos2Z.inj_mul. nia.
Qed.

(** The product of the double of a size below [2^k] and a fraction of
    small magnitude is finite. *)
Lemma mul_small_finite x f k :
  0 <= k <= 900 ->
  match x with
  | S754_zero _ => True
  | S754_finite s m e =>
      s = false /\ Z.pos (digits2_pos m) + e <= k + 1 /\ e <= Z.max 0 (k - 52)
  | _ => False
  end ->
  small_fraction f = true ->
  is_finite (mul x f) = true.
Proof.
  intros Hk Hx Hf.
  destruct x as [sx|sx| |sx mx ex], f as [sy|sy| |sy my ey];
    try contradiction; try discriminate; try reflexivity.
  destruct Hx as (_ & Hx1 & Hx2).
  cbn [small_fraction] in Hf. apply andb_true_iff in Hf. destruct Hf as [Hf1 Hf2].
  apply Z.leb_le in Hf1, Hf2.
  unfold mul. simpl SFmul.
  pose proof (binary_round_aux_bounds (xorb sx sy) (Z.pos (mx * my))
                (ex + ey) loc_Exact) as Hb.
  pose proof (digits2_pos_mul mx my) as Hd.
  simpl Zdigits2 in Hb.
  assert (Hb' := Hb ltac:(lia) ltac:(unfold emax, prec; lia)
                    ltac:(unfold emax; lia)). clear Hb.
  destruct (binary_round_aux prec emax _ _ _ _); cbn beta iota in Hb';
    auto; contradiction.
Qed.

Lemma round_count_small n frac k :
  0 <= n < 2 ^ k -> 0 <= k <= 900 -> small_fraction frac = true ->
  exists c, round_count n frac = Ok c.
Proof.
  intros Hn Hk Hf.
  destruct (of_int_bounds n k Hn ltac:(lia)) as [x [Hx Hb]].
  apply (round_count_defined n x frac Hx).
  now apply (mul_small_finite x frac k).
Qed.

(** The quotient of a count by a total that is not smaller. *)
Lemma SFdiv_core_bounds p q :
  (p <= q)%positive ->
  let '(mz, ez, lz) := SFdiv_core_binary prec emax (Z.pos p) 0 (Z.pos q) 0 in
  0 <= mz /\ ez <= 0 /\ Zdigits2 mz + ez <= 1.
Proof.
  intros Hpq. unfold SFdiv_core_binary.
  set (e' := Z.min (fexp prec emax (Zdigits2 (Z.pos p) + 0 - (Zdigits2 (Z.pos q) + 0)))
                   (0 - 0)).
  assert (He' : e' <= 0) by (subst e'; lia).
  set (m' := match 0 - 0 - e' with
             | 0 => Z.pos p
             | Z.pos _ => Z.shiftl (Z.pos p) (0 - 0 - e')
             | Z.neg _ => 0
             end).
  assert (Hm' : m' = Z.pos p * 2 ^ (- e')).
  { subst m'. destruct (0 - 0 - e') as [|s|s] eqn:Hs; try lia.
    - replace (- e') with 0 by lia. lia.
    - rewrite Z.shiftl_mul_pow2 by lia. f_equal. f_equal. lia. }
  pose proof (Z.div_eucl_eq m' (Z.pos q) ltac:(lia)) as Heq.
  pose proof (Z.mod_pos_bound m' (Z.pos q) ltac:(lia)) as Hmod.
  unfold Z.modulo in Hmod.
  destruct (Z.div_eucl m' (Z.pos q)) as [mz r].
  assert (H2 : 0 < 2 ^ (- e')) by (apply Z.pow_pos_nonneg; lia).
  assert (Hmz : 0 <= mz <= 2 ^ (- e')) by nia.
  split; [lia|]. split; [lia|].
  assert (Zdigits2 mz <= - e' + 1); [|lia].
  apply Zdigits2_le; try lia.
  rewrite Z.pow_add_r by lia. lia.
Qed.

Lemma int_truediv_small c n :
  0 <= c <= n -> 0 < n ->
  exists f, int_truediv c n = Ok f /\ small_fraction f = true.
Proof.
  intros Hc Hn. unfold int_truediv.
  destruct (Z.eqb_spec n 0); [lia|].
  destruct n as [|q|q]; try lia.
  destruct c as [|p|p]; try lia.
  - exists (S754_zero false). split; reflexivity.
  - simpl SFdiv.
    pose proof (SFdiv_core_bounds p q ltac:(lia)) as Hcore.
    destruct (SFdiv_core_binary prec emax (Z.pos p) 0 (Z.pos q) 0)
      as [[mz ez] lz].
    destruct Hcore as (H0 & H1 & H2).
    pose proof (binary_round_aux_bounds false mz ez lz H0) as Hb.
    assert (Hb' := Hb ltac:(unfold emax, prec; lia) ltac:(unfold emax; lia)).
    clear Hb. unfold emax, prec, emin in Hb'.
    change (binary_round_aux 53 1024) with (binary_round_aux prec emax) in Hb'.
    destruct (binary_round_aux prec emax false mz ez lz) as [s|s| |s m e];
      cbn [is_finite]; cbn beta iota in Hb'; try contradiction.
    + eexists. split; reflexivity.
    + eexists. split; [reflexivity|]. cbn [small_fraction].
      destruct Hb' as [Hb1 Hb2].
      change (Zdigits2 (Z.pos m)) with (Z.pos (digits2_pos m)) in Hb1.
      apply andb_true_iff. split; apply Z.leb_le; lia.
Qed.

(** A canonical double between 0 and 1 has small magnitude. *)
Lemma small_fraction_of_unit f :
  valid_binary prec emax f = true -> is_nonneg f = true ->
  SFleb f one = true -> small_fraction f = true.
Proof.
  destruct f as [s|s| |s m e];
    cbn [valid_binary is_nonneg small_fraction]; try discriminate; auto.
  - destruct s; discriminate.
  - intros Hv Hs Hle. apply negb_true_iff in Hs. subst s.
    unfold bounded, canonical_mantissa in Hv.
    apply andb_true_iff in Hv. destruct Hv as [Hc _].
    apply Z.eqb_eq in Hc. unfold fexp, emin, prec, emax in Hc.
    assert (He : e <= -52).
    { cbv beta iota delta [SFleb SFcompare one] in Hle.
      destruct (Z.compare_spec e (-52)); [lia|lia|discriminate]. }
    apply andb_true_iff. split; apply Z.leb_le; lia.
Qed.

End PyFloatBounds.


(** ** Calls that return *)

Lemma mapM_total_with {B C} (f : B -> result C) (P : C -> Prop) l :
  Forall (fun b => exists c, f b = Ok c /\ P c) l ->
  exists cs, mapM f l = Ok cs /\ Forall P cs.
Proof.
  induction 1 as [|b l [c [Hc Hp]] _ [cs [Hcs Hps]]]; simpl.
  - eauto.
  - rewrite Hc, Hcs. simpl. eauto.
Qed.

Lemma In_le_sum_ints c counts :
  Forall (fun c => 0 <= c) counts -> In c counts -> c <= sum_ints counts.
Proof.
  induction 1 as [|c' counts Hc' Hnn IH]; simpl; [contradiction|].
  rewrite sum_ints_cons. pose proof (sum_ints_nonneg counts Hnn).
  intros [->|Hin]; [lia|]. specialize (IH Hin). lia.
Qed.

Lemma In_length_concat {B} (p : list B) pools :
  In p pools -> (length p <= length (concat pools))%nat.
Proof.
  induction pools as [|q pools IH]; simpl; [contradiction|].
  rewrite length_app. intros [->|Hin]; [lia|]. specialize (IH Hin). lia.
Qed.

Lemma length_arange n : length (arange n) = n.
Proof. unfold arange. now rewrite length_map, length_seq. Qed.

Lemma fraction_entry_nonneg splits :
  Forall fraction_entry splits -> Forall nonneg_entry splits.
Proof.
  apply Forall_impl. intros [z|f|]; simpl; tauto.
Qed.

Lemma all_floats_small splits fracs :
  all_floats splits = Some fracs -> Forall fraction_entry splits ->
  Forall (fun f => small_fraction f = true) fracs.
Proof.
  revert fracs; induction splits as [|[z|f|] splits IH]; simpl;
    intros fracs H Hfe; try discriminate.
  - injection H as <-. constructor.
  - destruct (all_floats splits); simpl in H; [|discriminate].
    injection H as <-. inversion Hfe as [|? ? Hhd Htl]; subst.
    destruct Hhd as (Hv & Hn & Hle). constructor; auto.
    now apply PyFloatBounds.small_fraction_of_unit.
Qed.

(** A specification of the data model that is valid for [n] resolves to
    fractions of small magnitude. *)
Lemma resolve_fracs_small splits n :
  splits <> [] -> valid_spec splits n -> Forall fraction_entry splits ->
  (forall counts, all_ints splits = Some counts -> 0 < n) ->
  exists fracs,
    resolve_fracs splits n = Ok fracs /\ fracs <> [] /\
    Forall (fun f => small_fraction f = true) fracs.
Proof.
  intros Hne Hvalid Hfe Hn. unfold resolve_fracs.
  destruct (all_ints splits) as [counts|] eqn:Hi.
  - assert (Hsum : sum_ints counts = n).
    { destruct Hvalid as [[counts' [Hc Hs]]|[fracs [Hf _]]]; [congruence|].
      now rewrite (all_ints_all_floats splits counts fracs Hi Hf) in Hne. }
    rewrite Hsum, Z.eqb_refl. simpl.
    pose proof (all_ints_nonneg splits counts Hi (fraction_entry_nonneg _ Hfe))
      as Hnn.
    destruct (mapM_total_with (fun count => PyFloat.int_truediv count n)
                (fun f => small_fraction f = true) counts) as [fracs [Hm Hs]].
    { rewrite Forall_forall. intros c Hc.
      apply PyFloatBounds.int_truediv_small; [|eauto].
      rewrite Forall_forall in Hnn. split; [now apply Hnn|].
      rewrite <- Hsum. apply In_le_sum_ints; auto.
      now rewrite Forall_forall. }
    exists fracs. split; [exact Hm|]. split; [|exact Hs].
    apply mapM_length in Hm. apply all_ints_length in Hi.
    destruct fracs, splits; simpl in *; congruence.
  - destruct Hvalid as [[counts [Hc _]]|[fracs [Hf Hone]]]; [congruence|].
    rewrite Hf, Hone. simpl. exists fracs. split; [reflexivity|]. split.
    + apply all_floats_length in Hf.
      destruct fracs, splits; simpl in *; congruence.
    + now apply (all_floats_small splits).
Qed.

Lemma fractions_to_counts_returns fracs n :
  fracs <> [] -> 0 <= n < 2 ^ 63 ->
  Forall (fun f => small_fraction f = true) fracs ->
  exists counts, fractions_to_counts fracs n = Ok counts.
Proof.
  intros Hne Hn Hs.
  destruct (mapM_total (round_count n) fracs) as [rounded Hm].
  { eapply Forall_impl; [|exact Hs]. intros f Hf.
    apply (PyFloatBounds.round_count_small n f 63); auto; lia. }
  unfold fractions_to_counts. rewrite Hm. simpl.
  apply mapM_length in Hm.
  destruct rounded, fracs; simpl in *; try congruence. eauto.
Qed.

Section SplitDataReturns.
Context {A : Type}.
Variables (rng seed_t : Type).
Variable random_seed : seed_t -> rng.
Variable random_shuffle : list Z -> rng -> list Z * rng.

Hypothesis random_shuffle_perm :
  forall l g, Permutation (fst (random_shuffle l g)) l.

Lemma assign_pools_returns sh fracs pools : forall a g,
  fracs <> [] -> Forall (fun f => small_fraction f = true) fracs ->
  Forall (fun p : list Z => Z.of_nat (length p) < 2 ^ 63) pools ->
  exists a' g', assign_pools random_shuffle sh fracs pools a g = (Ok a', g').
Proof.
  induction pools as [|pool pools IH]; simpl; intros a g Hne Hs Hp.
  - eauto.
  - inversion Hp as [|? ? Hlen Hp']; subst.
    assert (Hsh : exists p g1,
              (if sh then random_shuffle pool g else (pool, g)) = (p, g1) /\
              length p = length pool).
    { destruct sh.
      - pose proof (random_shuffle_perm pool g) as Hperm.
        destruct (random_shuffle pool g) as [p g1].
        exists p, g1. split; auto. now apply Permutation_length.
      - eauto. }
    destruct Hsh as (p & g1 & -> & Hl).
    destruct (fractions_to_counts_returns fracs (Z.of_nat (length p)))
      as [counts Hc]; auto; [lia|].
    rewrite Hc. now apply IH.
Qed.

(** For a specification of the data model (at least one entry; counts
    that are not negative and sum to [n > 0], or fractions between 0 and
    1 that sum to 1.0), fewer than [2^63] samples and, under
    stratification, one label per sample, [split_data] returns its index
    lists. *)
Theorem split_data_returns (inputs : list (ArrayLike A)) n splits shuffle
    stratify_by seed g :
  sample_count inputs = Ok n ->
  Z.of_nat n < 2 ^ 63 ->
  splits <> [] ->
  valid_spec splits (Z.of_nat n) ->
  Forall fraction_entry splits ->
  (forall counts, all_ints splits = Some counts -> (0 < n)%nat) ->
  (forall labels, stratify_by = Some labels -> length labels = n) ->
  exists assignments g',
    split_data random_seed random_shuffle inputs splits shuffle stratify_by
               true seed g = (Ok (Assignments assignments), g').
Proof.
  intros Hn Hsize Hne Hvalid Hfe Hpos Hlabels.
  rewrite split_data_unfold, Hn. cbv zeta.
  destruct (resolve_fracs_small splits (Z.of_nat n) Hne Hvalid Hfe)
    as (fracs & Hr & Hfne & Hs).
  { intros counts Hc. specialize (Hpos counts Hc). lia. }
  rewrite Hr.
  match goal with
  | |- context [assign_pools _ ?sh _ ?pools ?a ?g0] =>
      destruct (assign_pools_returns sh fracs pools a g0) as (a' & g' & Ha);
        auto
  end.
  - destruct stratify_by as [labels|].
    + rewrite Forall_forall. intros p Hp.
      apply In_length_concat in Hp.
      pose proof (Permutation_length (make_pools_concat labels)) as Hl.
      rewrite length_arange, (Hlabels labels eq_refl) in Hl. lia.
    + repeat constructor. now rewrite length_arange.
  - rewrite Ha. eauto.
Qed.

Lemma slice_data_returns (data : ArrayLike A) n indices :
  sliceable n data ->
  Forall (fun i => 0 <= i < Z.of_nat n) indices ->
  exists out, slice_data data indices = Ok out.
Proof.
  destruct data as [xs|xs|k rows|ty len]; simpl; intros Hd Hin;
    try contradiction; eauto.
  destruct Hd as [Hk <-].
  destruct (mapM_total (array_getitem rows) indices) as [rs Hrs].
  { eapply Forall_impl; [|exact Hin]. intros i Hi.
    destruct (array_getitem_in_range rows i Hi) as [r [Hr _]]. eauto. }
  destruct k as [|ty [|]|]; try discriminate; rewrite Hrs; simpl; eauto.
Qed.

(** When the index lists are returned, so are the slices of collections
    that are lists, tuples, or arrays of [n] rows. *)
Theorem split_data_slices_return (inputs : list (ArrayLike A)) n splits
    shuffle stratify_by seed g assignments g' :
  sample_count inputs = Ok n ->
  Forall nonneg_entry splits ->
  (forall labels, stratify_by = Some labels -> length labels = n) ->
  Forall (sliceable n) inputs ->
  split_data random_seed random_shuffle inputs splits shuffle stratify_by
             true seed g = (Ok (Assignments assignments), g') ->
  exists out,
    split_data random_seed random_shuffle inputs splits shuffle stratify_by
               false seed g = (Ok out, g').
Proof.
  intros Hn Hnn Hlabels Hsl H.
  destruct (returned_assignments_partition rng seed_t random_seed
              random_shuffle random_shuffle_perm inputs n splits shuffle
              stratify_by seed g assignments g' Hn Hnn Hlabels H)
    as (_ & _ & _ & Hrange).
  rewrite split_data_unfold in H |- *. cbv zeta in H |- *.
  destruct (sample_count inputs) as [n'|]; [|discriminate].
  injection Hn as ->.
  destruct (resolve_fracs splits _) as [fracs|]; [|discriminate].
  destruct (assign_pools _ _ _ _ _ _) as [[a|e] g1]; [|discriminate].
  injection H as -> ->.
  destruct (mapM_total (fun data => mapM (slice_data data) assignments)
              inputs) as [outputs Ho].
  { eapply Forall_impl; [|exact Hsl]. intros data Hd.
    apply mapM_total. rewrite Forall_forall. intros idx Hidx.
    apply (slice_data_returns data n); auto.
    rewrite Forall_forall. intros i Hi. apply Hrange.
    apply in_concat. eauto. }
  rewrite Ho. destruct outputs as [|o [|]]; eauto.
Qed.

(** C1. On [n] samples, with a specification that has no negative entry
    and, under stratification, one label per sample, whatever the shuffle
    setting and the seed: the index lists that a call returns are one per
    entry of the specification, pairwise disjoint, without a repeated
    index, and hold together exactly the indices 0, ..., n-1; and the call
    does return them when the specification is one of the data model
    (at least one entry, valid for [n], fractions at most 1, [n > 0] for
    counts) and [n < 2^63]. *)
Theorem split_data_partition (inputs : list (ArrayLike A)) n splits shuffle
    stratify_by seed g :
  sample_count inputs = Ok n ->
  Forall nonneg_entry splits ->
  (forall labels, stratify_by = Some labels -> length labels = n) ->
  (forall assignments g',
     split_data random_seed random_shuffle inputs splits shuffle stratify_by
                true seed g = (Ok (Assignments assignments), g') ->
     length assignments = length splits /\
     (forall i j x, i <> j ->
        In x (nth i assignments []) -> In x (nth j assignments []) -> False) /\
     NoDup (concat assignments) /\
     (forall x, In x (concat assignments) <-> 0 <= x < Z.of_nat n)) /\
  (Z.of_nat n < 2 ^ 63 ->
   splits <> [] ->
   valid_spec splits (Z.of_nat n) ->
   Forall fraction_entry splits ->
   (forall counts, all_ints splits = Some counts -> (0 < n)%nat) ->
   exists assignments g',
     split_data random_seed random_shuffle inputs splits shuffle stratify_by
                true seed g = (Ok (Assignments assignments), g')).
Proof.
  intros Hn Hnn Hlabels. split.
  - intros assignments g' H.
    exact (returned_assignments_partition rng seed_t random_seed
             random_shuffle random_shuffle_perm inputs n splits shuffle
             stratify_by seed g assignments g' Hn Hnn Hlabels H).
  - intros Hsize Hne Hvalid Hfe Hpos.
    now apply (split_data_returns inputs n).
Qed.

End SplitDataReturns.

Lemma split_data_partition_witness :
  (length [[8; 3; 9; 6; 2; 4; 11; 7]; [0; 5]; [10; 1]] =
     length [PyInt 8; PyInt 2; PyInt 2] /\
   (forall i j x, i <> j ->
      In x (nth i [[8; 3; 9; 6; 2; 4; 11; 7]; [0; 5]; [10; 1]] []) ->
      In x (nth j [[8; 3; 9; 6; 2; 4; 11; 7]; [0; 5]; [10; 1]] []) ->
      False) /\
   NoDup (concat [[8; 3; 9; 6; 2; 4; 11; 7]; [0; 5]; [10; 1]]) /\
   (forall x, In x (concat [[8; 3; 9; 6; 2; 4; 11; 7]; [0; 5]; [10; 1]]) <->
              0 <= x < Z.of_nat 12)) /\
  (exists assignments g',
     split_data Lcg.seed Lcg.shuffle [PyList (repeat tt 12)]
                [PyInt 8; PyInt 2; PyInt 2] true
                (Some [0; 1; 0; 0; 1; 1; 0; 1; 0; 0; 0; 1]) true (Some 42) 0 =
     (Ok (Assignments assignments), g')).
Proof.
  destruct (split_data_partition Lcg.rng Z Lcg.seed Lcg.shuffle
              Lcg_shuffle_perm [PyList (repeat tt 12)] 12
              [PyInt 8; PyInt 2; PyInt 2] true
              (Some [0; 1; 0; 0; 1; 1; 0; 1; 0; 0; 0; 1]) (Some 42) 0)
    as [Hpart Hret].
  - reflexivity.
  - repeat constructor; simpl; lia.
  - intros labels [= <-]. reflexivity.
  - split.
    + apply (Hpart _ 1108520142). vm_compute. reflexivity.
    + apply Hret.
      * vm_compute. reflexivity.
      * discriminate.
      * left. exists [8; 2; 2]. split; reflexivity.
      * repeat constructor; simpl; lia.
      * intros _ _. lia.
Defined.

(** * Further properties *)

(** ** Grouping by key *)

Section GroupingFacts.
Context {K W : Type}.
Variable eqb : K -> K -> bool.
Hypothesis eqb_eq : forall a b, eqb a b = true <-> a = b.

Lemma eqb_refl_true a : eqb a a = true.
Proof. now apply eqb_eq. Qed.

Lemma existsb_eqb_In key seen :
  existsb (fun k => eqb k key) seen = true <-> In key seen.
Proof.
  rewrite existsb_exists. split.
  - intros [k [Hin Hk]]. apply eqb_eq in Hk. now subst.
  - intros Hin. exists key. split; auto. apply eqb_refl_true.
Qed.

Lemma first_seen_snoc keys key :
  first_seen eqb (keys ++ [key]) =
  if existsb (fun k => eqb k key) (first_seen eqb keys)
  then first_seen eqb keys else first_seen eqb keys ++ [key].
Proof. unfold first_seen. now rewrite fold_left_app. Qed.

Lemma first_seen_In keys key : In key (first_seen eqb keys) <-> In key keys.
Proof.
  revert key. induction keys as [|k keys IH] using rev_ind; intros key;
    [reflexivity|].
  rewrite first_seen_snoc, in_app_iff. simpl.
  destruct (existsb _ _) eqn:He.
  - apply existsb_eqb_In in He. rewrite IH.
    split; [tauto|]. intros [H|[<-|[]]]; auto. now apply IH.
  - rewrite in_app_iff, IH. simpl. tauto.
Qed.

Lemma first_seen_NoDup keys : NoDup (first_seen eqb keys).
Proof.
  induction keys as [|k keys IH] using rev_ind; [constructor|].
  rewrite first_seen_snoc. destruct (existsb _ _) eqn:He; auto.
  assert (Hnin : ~ In k (first_seen eqb keys)).
  { intros Hin. apply existsb_eqb_In in Hin. congruence. }
  clear He. induction IH as [|k' l Hk' _ IHl]; simpl.
  - constructor; [tauto|constructor].
  - constructor.
    + rewrite in_app_iff. simpl in *. intros [H|[H|[]]]; [tauto|].
      subst. tauto.
    + apply IHl. simpl in Hnin. tauto.
Qed.

Lemma values_of_snoc key pairs k (w : W) :
  values_of eqb key (pairs ++ [(k, w)]) =
  values_of eqb key pairs ++ (if eqb key k then [w] else []).
Proof.
  unfold values_of. rewrite filter_app, map_app. simpl.
  now destruct (eqb key k).
Qed.

Lemma values_of_absent key (pairs : list (K * W)) :
  ~ In key (map fst pairs) -> values_of eqb key pairs = [].
Proof.
  unfold values_of. induction pairs as [|[k w] pairs IH]; simpl; auto.
  intros Hnin. destruct (eqb key k) eqn:He.
  - apply eqb_eq in He. subst. tauto.
  - apply IH. tauto.
Qed.

Lemma group_append_keys (f : K -> list W) keys key w :
  NoDup keys ->
  group_append eqb (map (fun k => (k, f k)) keys) key w =
  if existsb (fun k => eqb k key) keys
  then map (fun k => (k, f k ++ (if eqb k key then [w] else []))) keys
  else map (fun k => (k, f k)) keys ++ [(key, [w])].
Proof.
  induction 1 as [|k keys Hk Hnd IH]; simpl; [reflexivity|].
  destruct (eqb k key) eqn:He; simpl.
  - apply eqb_eq in He. subst k. f_equal.
    apply map_ext_in. intros k Hin.
    destruct (eqb k key) eqn:He'.
    + apply eqb_eq in He'. subst. tauto.
    + now rewrite app_nil_r.
  - rewrite IH. destruct (existsb _ keys); simpl.
    + now rewrite app_nil_r.
    + reflexivity.
Qed.

(** Appending pair by pair groups the values by key, the keys in the
    order in which they are first seen. *)
Lemma group_fold (pairs : list (K * W)) :
  fold_left (fun d '(key, w) => group_append eqb d key w) pairs [] =
  map (fun key => (key, values_of eqb key pairs))
      (first_seen eqb (map fst pairs)).
Proof.
  induction pairs as [|[k w] pairs IH] using rev_ind; [reflexivity|].
  rewrite fold_left_app, IH. simpl.
  rewrite map_app. simpl. rewrite first_seen_snoc.
  rewrite group_append_keys by apply first_seen_NoDup.
  destruct (existsb _ _) eqn:He.
  - apply map_ext. intros key. now rewrite values_of_snoc.
  - rewrite map_app. simpl. f_equal.
    + apply map_ext_in. intros key Hin. rewrite values_of_snoc.
      destruct (eqb key k) eqn:Hk; [|now rewrite app_nil_r].
      apply eqb_eq in Hk. subst. apply existsb_eqb_In in Hin. congruence.
    + rewrite values_of_snoc, eqb_refl_true.
      rewrite values_of_absent; [reflexivity|].
      rewrite <- first_seen_In. intros Hin.
      apply existsb_eqb_In in Hin. congruence.
Qed.

End GroupingFacts.

(** ** The pools of a stratification *)

Lemma Z_eqb_eq a b : (a =? b) = true <-> a = b.
Proof. apply Z.eqb_eq. Qed.

Lemma dict_append_group d val i :
  dict_append d val i = group_append Z.eqb d val i.
Proof.
  induction d as [|[k v] d IH]; simpl; [reflexivity|].
  destruct (k =? val); [reflexivity|]. now rewrite IH.
Qed.

Lemma fold_dict_append_group (l : list (Z * Z)) : forall d,
  fold_left (fun d '(i, val) => dict_append d val i) l d =
  fold_left (fun d '(key, w) => group_append Z.eqb d key w)
            (map (fun '(i, val) => (val, i)) l) d.
Proof.
  induction l as [|[i val] l IH]; intros d; simpl; [reflexivity|].
  now rewrite IH, dict_append_group.
Qed.

Lemma map_snd_enumerate {B} (l : list B) : map snd (enumerate l) = l.
Proof.
  unfold enumerate, arange. generalize 0%nat.
  induction l as [|b l IH]; intros s; simpl; auto.
  f_equal. apply IH.
Qed.

Lemma values_of_swap val (l : list (Z * Z)) :
  values_of Z.eqb val (map (fun '(i, v) => (v, i)) l) =
  map fst (filter (fun '(_, v) => val =? v) l).
Proof.
  unfold values_of. induction l as [|[i v] l IH]; simpl; [reflexivity|].
  destruct (val =? v); simpl; now rewrite IH.
Qed.

Lemma In_enumerate_from {B} (l : list B) : forall s i x,
  In (i, x) (combine (map Z.of_nat (seq s (length l))) l) <->
  Z.of_nat s <= i /\ nth_error l (Z.to_nat i - s) = Some x.
Proof.
  induction l as [|b l IH]; intros s i x; simpl.
  - split; [tauto|]. intros [_ H]. destruct (Z.to_nat i - s)%nat; discriminate.
  - rewrite IH. split.
    + intros [H|[Hle Hnth]].
      * injection H as <- <-. split; [lia|].
        rewrite Nat2Z.id, Nat.sub_diag. reflexivity.
      * split; [lia|].
        replace (Z.to_nat i - s)%nat with (S (Z.to_nat i - S s)) by lia.
        exact Hnth.
    + intros [Hle Hnth].
      destruct (Z.eq_dec i (Z.of_nat s)) as [->|Hne].
      * left. rewrite Nat2Z.id, Nat.sub_diag in Hnth. simpl in Hnth.
        congruence.
      * right. split; [lia|].
        replace (Z.to_nat i - s)%nat with (S (Z.to_nat i - S s)) in Hnth
          by lia.
        exact Hnth.
Qed.

Lemma In_enumerate {B} (l : list B) i x :
  In (i, x) (enumerate l) <-> 0 <= i /\ nth_error l (Z.to_nat i) = Some x.
Proof.
  unfold enumerate, arange. rewrite In_enumerate_from.
  now rewrite Nat.sub_0_r.
Qed.

Lemma filter_enumerate_sorted {B} (P : Z * B -> bool) (l : list B) :
  forall s,
  StronglySorted Z.lt
    (map fst (filter P (combine (map Z.of_nat (seq s (length l))) l))).
Proof.
  induction l as [|b l IH]; intros s; simpl; [constructor|].
  destruct (P (Z.of_nat s, b)); simpl; [|apply IH].
  constructor; [apply IH|].
  rewrite Forall_forall. intros i Hi.
  apply in_map_iff in Hi. destruct Hi as [[i' x] [<- Hin]].
  apply filter_In in Hin. destruct Hin as [Hin _].
  apply In_enumerate_from in Hin. simpl. lia.
Qed.

Lemma positions_of_In val labels i :
  In i (positions_of val labels) <->
  0 <= i /\ nth_error labels (Z.to_nat i) = Some val.
Proof.
  unfold positions_of. rewrite in_map_iff. split.
  - intros [[i' v] [<- Hin]]. apply filter_In in Hin.
    destruct Hin as [Hin Hv]. apply Z.eqb_eq in Hv. subst v.
    now apply In_enumerate in Hin.
  - intros H. exists (i, val). split; [reflexivity|].
    apply filter_In. split; [now apply In_enumerate|apply Z.eqb_refl].
Qed.

(** The pools of a stratification are one per label, in the order in
    which the labels are first seen (each label once, every label of
    [stratify_by] among them), and the pool of a label holds the
    positions that carry it, in increasing order. *)
Theorem make_pools_by_label labels :
  make_pools labels =
    map (fun val => positions_of val labels) (first_seen Z.eqb labels) /\
  NoDup (first_seen Z.eqb labels) /\
  (forall val, In val (first_seen Z.eqb labels) <-> In val labels) /\
  (forall val i,
     In i (positions_of val labels) <->
     0 <= i /\ nth_error labels (Z.to_nat i) = Some val) /\
  (forall val, StronglySorted Z.lt (positions_of val labels)).
Proof.
  split; [|split; [|split; [|split]]].
  - unfold make_pools.
    rewrite fold_dict_append_group, (group_fold Z.eqb Z_eqb_eq).
    rewrite !map_map.
    replace (map (fun x : Z * Z => fst (let '(i, v) := x in (v, i)))
                 (enumerate labels)) with labels.
    + apply map_ext. intros val. simpl. apply values_of_swap.
    + rewrite <- (map_snd_enumerate labels) at 1.
      apply map_ext. now intros [i v].
  - apply (first_seen_NoDup Z.eqb Z_eqb_eq).
  - intros val. apply (first_seen_In Z.eqb Z_eqb_eq).
  - intros val i. apply positions_of_In.
  - intros val. unfold positions_of, enumerate, arange.
    apply filter_enumerate_sorted.
Qed.

(** ** Calls without stratification *)

Lemma zip_repeat_nil {B} (ss : list (list B)) k :
  length ss = k ->
  map (fun '(x, s) => x ++ s) (combine (repeat [] k) ss) = ss.
Proof.
  intros <-. induction ss as [|s ss IH]; simpl; [reflexivity|].
  now rewrite IH.
Qed.

Lemma fractions_to_counts_length fracs n counts :
  fractions_to_counts fracs n = Ok counts -> length counts = length fracs.
Proof.
  intros H. apply fractions_to_counts_inv in H.
  destruct H as (rounded & Hm & Hne & ->).
  apply mapM_length in Hm.
  rewrite length_app, length_removelast. simpl.
  destruct rounded; simpl in *; [congruence|lia].
Qed.

Lemma fractions_to_counts_sum fracs n counts :
  fractions_to_counts fracs n = Ok counts -> sum_ints counts = n.
Proof.
  intros H. apply fractions_to_counts_inv in H.
  destruct H as (rounded & _ & _ & ->).
  rewrite sum_ints_app, sum_ints_cons. change (sum_ints []) with 0. lia.
Qed.

Lemma length_py_slice {B} (l : list B) a c :
  0 <= a -> 0 <= c -> a + c <= Z.of_nat (length l) ->
  Z.of_nat (length (py_slice l a (a + c))) = c.
Proof.
  intros Ha Hc Hlen. unfold py_slice, slice_bound.
  destruct (Z.ltb_spec a 0); [lia|].
  destruct (Z.ltb_spec (a + c) 0); [lia|].
  rewrite !Z.min_l by lia.
  rewrite length_firstn, length_skipn. lia.
Qed.

Lemma pool_slices_lengths pool counts : forall start,
  0 <= start -> Forall (fun c => 0 <= c) counts ->
  start + sum_ints counts <= Z.of_nat (length pool) ->
  map (fun l => Z.of_nat (length l)) (pool_slices pool start counts) = counts.
Proof.
  induction counts as [|c counts IH]; intros start Hs Hnn Hsum; simpl;
    [reflexivity|].
  inversion Hnn as [|? ? Hc Hnn']; subst.
  rewrite sum_ints_cons in Hsum.
  pose proof (sum_ints_nonneg counts Hnn').
  rewrite length_py_slice by lia. f_equal. apply IH; auto; lia.
Qed.

Section Unstratified.
Context {A : Type}.
Variables (rng seed_t : Type).
Variable random_seed : seed_t -> rng.
Variable random_shuffle : list Z -> rng -> list Z * rng.

(** A call without stratification that returns its index lists: the one
    pool, as shuffled or not, is cut by the counts of
    [fractions_to_counts]. *)
Lemma unstratified_inv (inputs : list (ArrayLike A)) n splits shuffle seed g
    a g' :
  sample_count inputs = Ok n ->
  split_data random_seed random_shuffle inputs splits shuffle None true
             seed g = (Ok (Assignments a), g') ->
  exists fracs p counts,
    resolve_fracs splits (Z.of_nat n) = Ok fracs /\
    (if shuffle
     then random_shuffle (arange n)
            match seed with Some s => random_seed s | None => g end
     else (arange n, match seed with Some s => random_seed s | None => g end))
      = (p, g') /\
    fractions_to_counts fracs (Z.of_nat (length p)) = Ok counts /\
    a = pool_slices p 0 counts.
Proof.
  intros Hn. rewrite split_data_unfold, Hn. cbv zeta.
  destruct (resolve_fracs splits (Z.of_nat n)) as [fracs|] eqn:Hr;
    [|discriminate].
  rewrite orb_false_r. simpl assign_pools.
  destruct (if shuffle then _ else _) as [p g1] eqn:Hp.
  destruct (fractions_to_counts fracs (Z.of_nat (length p)))
    as [counts|] eqn:Hc; [|discriminate].
  intros H. injection H as <- <-.
  exists fracs, p, counts. repeat split; auto.
  apply resolve_fracs_finite in Hr. destruct Hr as [_ Hlen].
  pose proof (fractions_to_counts_length _ _ _ Hc) as Hlc.
  rewrite extend_assignments_slices by (rewrite repeat_length; congruence).
  apply zip_repeat_nil. rewrite length_pool_slices. congruence.
Qed.

(** Without shuffling and stratification, and with no negative entry in
    the specification, the index lists are consecutive runs: put one
    after the other in the order of the splits they are 0, 1, ..., n-1;
    and the generator is left as it was (or as [random.seed] set it). *)
Theorem split_data_unshuffled_in_order (inputs : list (ArrayLike A)) n splits
    seed g a g' :
  sample_count inputs = Ok n ->
  Forall nonneg_entry splits ->
  split_data random_seed random_shuffle inputs splits false None true
             seed g = (Ok (Assignments a), g') ->
  concat a = arange n /\
  g' = match seed with Some s => random_seed s | None => g end.
Proof.
  intros Hn Hnn H.
  destruct (unstratified_inv inputs n splits false seed g a g' Hn H)
    as (fracs & p & counts & Hr & Hp & Hc & ->).
  injection Hp as <- <-. split; [|reflexivity].
  apply (resolve_fracs_nonneg splits _ fracs (Nat2Z.is_nonneg n) Hnn) in Hr.
  apply fractions_to_counts_nonneg in Hc; auto; [|lia].
  destruct Hc as (init & -> & Hinit & _).
  replace (Z.of_nat (length (arange n)) - sum_ints init)
    with (Z.of_nat (length (arange n)) - 0 - sum_ints init) by lia.
  rewrite pool_slices_concat by (auto; lia). reflexivity.
Qed.

Hypothesis random_shuffle_perm :
  forall l g, Permutation (fst (random_shuffle l g)) l.

(** Without stratification, the sizes of the index lists are the counts
    that [fractions_to_counts] gives for the whole collection, whenever
    none of these is negative. *)
Theorem split_data_sizes_are_counts (inputs : list (ArrayLike A)) n splits
    shuffle seed g a g' :
  sample_count inputs = Ok n ->
  split_data random_seed random_shuffle inputs splits shuffle None true
             seed g = (Ok (Assignments a), g') ->
  exists fracs counts,
    resolve_fracs splits (Z.of_nat n) = Ok fracs /\
    fractions_to_counts fracs (Z.of_nat n) = Ok counts /\
    (Forall (fun c => 0 <= c) counts ->
     map (fun l => Z.of_nat (length l)) a = counts).
Proof.
  intros Hn H.
  destruct (unstratified_inv inputs n splits shuffle seed g a g' Hn H)
    as (fracs & p & counts & Hr & Hp & Hc & ->).
  assert (Hlen : length p = n).
  { destruct shuffle.
    - pose proof (random_shuffle_perm (arange n)
        match seed with Some s => random_seed s | None => g end) as Hperm.
      rewrite Hp in Hperm. apply Permutation_length in Hperm.
      now rewrite length_arange in Hperm.
    - injection Hp as <- _. apply length_arange. }
  rewrite Hlen in Hc. exists fracs, counts. repeat split; auto.
  intros Hnn. apply pool_slices_lengths; auto; [lia|].
  rewrite (fractions_to_counts_sum _ _ _ Hc). lia.
Qed.

End Unstratified.

Lemma split_data_unshuffled_in_order_witness :
  concat [[0; 1; 2]; [3; 4]; [5; 6; 7; 8; 9]] = arange 10 /\ 0 = 0.
Proof.
  apply (split_data_unshuffled_in_order Lcg.rng Z Lcg.seed Lcg.shuffle
           [PyList (repeat tt 10)] 10 [PyInt 3; PyInt 2; PyInt 5]
           None 0).
  - reflexivity.
  - repeat constructor; simpl; lia.
  - vm_compute. reflexivity.
Defined.

Lemma split_data_sizes_are_counts_witness :
  map (fun l => Z.of_nat (length l)) [[4; 7; 0]; [5; 8]; [9; 1; 2; 3; 6]] =
  [3; 2; 5].
Proof.
  destruct (split_data_sizes_are_counts Lcg.rng Z Lcg.seed Lcg.shuffle
              Lcg_shuffle_perm [PyList (repeat tt 10)] 10
              [PyInt 3; PyInt 2; PyInt 5] true None 5
              [[4; 7; 0]; [5; 8]; [9; 1; 2; 3; 6]] 1281904643)
    as (fracs & counts & Hr & Hc & Hsizes).
  - reflexivity.
  - vm_compute. reflexivity.
  - vm_compute in Hr. injection Hr as <-.
    vm_compute in Hc. injection Hc as <-.
    apply Hsizes. repeat constructor; lia.
Defined.

(** ** An empty collection *)

Lemma round_count_zero frac :
  PyFloat.is_finite frac = true -> round_count 0 frac = Ok 0.
Proof. destruct frac as [s|s| |s m e]; try discriminate; reflexivity. Qed.

Lemma mapM_round_count_zero fracs :
  Forall (fun f => PyFloat.is_finite f = true) fracs ->
  mapM (round_count 0) fracs = Ok (repeat 0 (length fracs)).
Proof.
  induction 1 as [|f fracs Hf _ IH]; simpl; [reflexivity|].
  now rewrite (round_count_zero f Hf), IH.
Qed.

Lemma sum_ints_repeat_zero k : sum_ints (repeat 0 k) = 0.
Proof.
  induction k as [|k IH]; [reflexivity|].
  simpl repeat. rewrite sum_ints_cons. lia.
Qed.

Lemma repeat_snoc {B} (b : B) k : repeat b k ++ [b] = repeat b (S k).
Proof. induction k as [|k IH]; simpl; [reflexivity|]. now rewrite IH. Qed.

Lemma removelast_repeat {B} (b : B) k :
  removelast (repeat b (S k)) = repeat b k.
Proof. rewrite <- repeat_snoc. apply removelast_last. Qed.

(** On a pool of size 0 every count is 0. *)
Lemma fractions_to_counts_zero fracs :
  fracs <> [] -> Forall (fun f => PyFloat.is_finite f = true) fracs ->
  fractions_to_counts fracs 0 = Ok (repeat 0 (length fracs)).
Proof.
  intros Hne Hfin. unfold fractions_to_counts.
  rewrite (mapM_round_count_zero fracs Hfin). simpl.
  destruct fracs as [|f fracs]; [congruence|].
  simpl length. change (repeat 0 (S (length fracs)))
    with (0 :: repeat 0 (length fracs)) at 1.
  cbv iota beta. rewrite removelast_repeat, sum_ints_repeat_zero.
  now rewrite repeat_snoc.
Qed.

Lemma pool_slices_nil counts : forall start,
  pool_slices [] start counts = repeat [] (length counts).
Proof.
  induction counts as [|c counts IH]; intros start; simpl; [reflexivity|].
  rewrite IH. f_equal. unfold py_slice. now rewrite skipn_nil, firstn_nil.
Qed.

Section EmptyCollection.
Context {A : Type}.
Variables (rng seed_t : Type).
Variable random_seed : seed_t -> rng.
Variable random_shuffle : list Z -> rng -> list Z * rng.

Hypothesis random_shuffle_perm :
  forall l g, Permutation (fst (random_shuffle l g)) l.

(** On an empty first collection, integer counts never give a result:
    a specification of at least one int raises [ValueError] when the
    counts do not sum to 0 and [ZeroDivisionError] when they do; float
    fractions that sum to 1.0 give one empty index list per fraction. *)
Theorem split_data_empty_collection (inputs : list (ArrayLike A)) splits
    shuffle seed g :
  sample_count inputs = Ok 0%nat ->
  let g0 := match seed with Some s => random_seed s | None => g end in
  (forall counts index_only stratify_by,
     all_ints splits = Some counts -> splits <> [] ->
     split_data random_seed random_shuffle inputs splits shuffle stratify_by
                index_only seed g =
     (Raise (if sum_ints counts =? 0 then ZeroDivisionError
             else ValueError (SplitCountsSum 0 (sum_ints counts))), g0)) /\
  (forall fracs,
     all_floats splits = Some fracs ->
     PyFloat.eqb (sum_floats fracs) PyFloat.one = true ->
     exists g',
       split_data random_seed random_shuffle inputs splits shuffle None
                  true seed g =
       (Ok (Assignments (repeat [] (length splits))), g')).
Proof.
  intros Hn g0. subst g0. split.
  - intros counts index_only stratify_by Hi Hne.
    rewrite split_data_unfold, Hn. cbv zeta.
    unfold resolve_fracs. rewrite Hi. change (Z.of_nat 0) with 0.
    destruct (sum_ints counts =? 0); [|reflexivity]. simpl.
    destruct counts as [|c counts]; [|reflexivity].
    apply all_ints_length in Hi. destruct splits; simpl in *; congruence.
  - intros fracs Hf Hone.
    assert (Hne : fracs <> []) by (intros ->; discriminate).
    assert (Hi : all_ints splits = None).
    { destruct splits as [|[z|f|] splits]; simpl in *; try congruence. }
    pose proof (sum_floats_one_finite fracs Hone) as Hfin.
    pose proof (all_floats_length _ _ Hf) as Hlen.
    rewrite split_data_unfold, Hn. cbv zeta.
    unfold resolve_fracs. rewrite Hi, Hf, Hone. simpl negb. cbv iota.
    rewrite orb_false_r. simpl assign_pools.
    assert (Hp : exists g1,
              (if shuffle then random_shuffle []
                 match seed with Some s => random_seed s | None => g end
               else ([], match seed with Some s => random_seed s | None => g end))
              = ([], g1)).
    { destruct shuffle; [|eauto].
      pose proof (random_shuffle_perm []
        match seed with Some s => random_seed s | None => g end) as Hperm.
      destruct (random_shuffle [] _) as [p g1].
      simpl in Hperm. apply Permutation_sym, Permutation_nil in Hperm.
      subst. eauto. }
    destruct Hp as [g1 Hp]. change (arange 0) with (@nil Z). rewrite Hp.
    simpl length. change (Z.of_nat 0) with 0.
    rewrite (fractions_to_counts_zero fracs Hne Hfin).
    exists g1. f_equal. f_equal. f_equal.
    rewrite extend_assignments_slices
      by (rewrite !repeat_length; congruence).
    rewrite zip_repeat_nil
      by (rewrite length_pool_slices, repeat_length; congruence).
    rewrite pool_slices_nil, repeat_length. congruence.
Qed.

End EmptyCollection.

Lemma split_data_empty_collection_witness :
  split_data Lcg.seed Lcg.shuffle [PyList (@nil unit)] [PyInt 0; PyInt 0] true
             None false None 7 = (Raise ZeroDivisionError, 7) /\
  exists g',
    split_data Lcg.seed Lcg.shuffle [PyList (@nil unit)]
               [PyFloatV f_half; PyFloatV f_half] true None true None 7 =
    (Ok (Assignments (repeat [] (length [PyFloatV f_half; PyFloatV f_half]))),
     g').
Proof.
  split.
  - apply (proj1 (split_data_empty_collection Lcg.rng Z Lcg.seed Lcg.shuffle
                    Lcg_shuffle_perm [PyList (@nil unit)] [PyInt 0; PyInt 0]
                    true None 7 eq_refl) [0; 0] false None).
    + reflexivity.
    + discriminate.
  - apply (proj2 (split_data_empty_collection Lcg.rng Z Lcg.seed Lcg.shuffle
                    Lcg_shuffle_perm [PyList (@nil unit)]
                    [PyFloatV f_half; PyFloatV f_half]
                    true None 7 eq_refl) [f_half; f_half]).
    + reflexivity.
    + vm_compute. reflexivity.
Defined.

(** ** The slices hold every row once *)

Section SlicesKeepRows.
Context {A : Type}.

Lemma concat_filters_count {B C} (P : C -> B -> bool) (a : list C) (e : B) l :
  Permutation (concat (map (fun idx => filter (P idx) (e :: l)) a))
              (repeat e (length (filter (fun idx => P idx e) a)) ++
               concat (map (fun idx => filter (P idx) l) a)).
Proof.
  induction a as [|idx a IH]; simpl; [reflexivity|].
  destruct (P idx e); simpl.
  - constructor. rewrite IH. apply Permutation_app_swap_app.
  - rewrite IH. apply Permutation_app_swap_app.
Qed.

Lemma concat_filters {B C} (P : C -> B -> bool) (Q : B -> bool) (a : list C) l :
  (forall e, In e l ->
     length (filter (fun idx => P idx e) a) = if Q e then 1%nat else 0%nat) ->
  Permutation (concat (map (fun idx => filter (P idx) l) a)) (filter Q l).
Proof.
  induction l as [|e l IH]; intros Hcount.
  - clear Hcount. induction a as [|idx a IHa]; simpl; auto.
  - rewrite concat_filters_count, (Hcount e (in_eq e l)). simpl.
    destruct (Q e); simpl.
    + constructor. apply IH. intros e' He'. apply Hcount. now right.
    + apply IH. intros e' He'. apply Hcount. now right.
Qed.

Lemma filter_in_set_absent i (a : list (list Z)) :
  ~ In i (concat a) -> filter (in_set i) a = [].
Proof.
  induction a as [|idx a IH]; simpl; [reflexivity|].
  rewrite in_app_iff. intros Hnin.
  destruct (in_set i idx) eqn:Hi.
  - apply in_set_In in Hi. tauto.
  - apply IH. tauto.
Qed.

Lemma filter_in_set_once i (a : list (list Z)) :
  NoDup (concat a) -> In i (concat a) ->
  length (filter (in_set i) a) = 1%nat.
Proof.
  induction a as [|idx a IH]; simpl; [contradiction|].
  intros Hnd Hin. destruct (in_set i idx) eqn:Hi.
  - apply in_set_In in Hi. simpl. f_equal.
    rewrite filter_in_set_absent; [reflexivity|].
    intros Ha. exact (NoDup_app_disjoint idx (concat a) i Hnd Hi Ha).
  - apply IH.
    + now apply NoDup_app_remove_l in Hnd.
    + apply in_app_or in Hin. destruct Hin as [Hin|Hin]; auto.
      apply in_set_In in Hin. congruence.
Qed.

Lemma filter_below_enumerate (xs : list A) n : forall s,
  map snd (filter (fun '(i, _) => i <? Z.of_nat n)
                  (combine (map Z.of_nat (seq s (length xs))) xs)) =
  firstn (n - s) xs.
Proof.
  induction xs as [|x xs IH]; intros s; simpl.
  - now rewrite firstn_nil.
  - destruct (Z.ltb_spec (Z.of_nat s) (Z.of_nat n)) as [Hlt|Hge].
    + simpl. rewrite IH.
      replace (n - s)%nat with (S (n - S s)) by lia. reflexivity.
    + rewrite IH. replace (n - s)%nat with 0%nat by lia.
      replace (n - S s)%nat with 0%nat by lia. reflexivity.
Qed.

(** The slices of a list by index lists that partition 0..n-1. *)
Lemma list_slices_keep_rows (xs : list A) (a : list (list Z)) n :
  NoDup (concat a) ->
  (forall i, In i (concat a) <-> 0 <= i < Z.of_nat n) ->
  Permutation
    (concat (map (fun idx =>
                    map snd (filter (fun '(i, _) => in_set i idx)
                                    (enumerate xs))) a))
    (firstn n xs).
Proof.
  intros Hnd Hrange.
  rewrite <- (Nat.sub_0_r n), <- (filter_below_enumerate xs n 0).
  fold (arange (length xs)). fold (enumerate xs).
  rewrite <- (map_map (fun idx => filter (fun '(i, _) => in_set i idx)
                                         (enumerate xs)) (map snd)).
  rewrite <- concat_map. apply Permutation_map.
  apply (concat_filters (fun idx '(i, _) => in_set i idx)).
  intros [i x] Hin. apply In_enumerate in Hin. destruct Hin as [Hpos _].
  destruct (Z.ltb_spec i (Z.of_nat n)) as [Hlt|Hge].
  - apply filter_in_set_once; auto. apply Hrange. lia.
  - rewrite filter_in_set_absent; [reflexivity|].
    intros Hin. apply Hrange in Hin. lia.
Qed.


Lemma skipn_nth_error (rows : list A) : forall s,
  skipn s rows =
  match nth_error rows s with
  | Some r => r :: skipn (S s) rows
  | None => []
  end.
Proof.
  induction rows as [|r rows IH]; intros [|s]; try reflexivity.
  simpl nth_error. rewrite <- IH. reflexivity.
Qed.

Lemma rows_at_arange (rows : list A) n : forall s,
  flat_map (fun i => match nth_error rows (Z.to_nat i) with
                     | Some r => [r]
                     | None => []
                     end)
           (map Z.of_nat (seq s n)) =
  firstn n (skipn s rows).
Proof.
  induction n as [|n IH]; intros s; [reflexivity|].
  simpl. rewrite Nat2Z.id, IH, (skipn_nth_error rows s).
  destruct (nth_error rows s) as [r|] eqn:Hr; [reflexivity|].
  apply nth_error_None in Hr.
  now rewrite skipn_all2 by lia; rewrite firstn_nil.
Qed.

Lemma array_getitem_nonneg (rows : list A) i r :
  0 <= i -> array_getitem rows i = Ok r ->
  nth_error rows (Z.to_nat i) = Some r.
Proof.
  unfold array_getitem. intros Hi.
  destruct (Z.ltb_spec i 0); [lia|].
  destruct (_ && _); [|discriminate].
  destruct (nth_error rows (Z.to_nat i)); congruence.
Qed.

Lemma mapM_array_getitem (rows : list A) indices rs :
  Forall (fun i => 0 <= i) indices ->
  mapM (array_getitem rows) indices = Ok rs ->
  rs = flat_map (fun i => match nth_error rows (Z.to_nat i) with
                          | Some r => [r]
                          | None => []
                          end) indices.
Proof.
  intros Hnn Hm. apply mapM_Forall2 in Hm.
  induction Hm as [|i r indices rs Hr _ IH]; [reflexivity|].
  inversion Hnn as [|? ? Hi Hnn']; subst. simpl.
  rewrite (array_getitem_nonneg rows i r Hi Hr). simpl.
  f_equal. auto.
Qed.

Lemma slice_data_array_inv k (rows : list A) indices s :
  slice_data (PyArray k rows) indices = Ok s ->
  exists rs, mapM (array_getitem rows) indices = Ok rs /\ s = PyArray k rs.
Proof.
  simpl. intros H.
  assert (H' : (do rs <- mapM (array_getitem rows) indices;
                Ok (PyArray k rs)) = Ok s)
    by (destruct k as [|ty [|]|]; solve [exact H | discriminate]).
  destruct (mapM (array_getitem rows) indices) as [rs|]; simpl in H';
    [|discriminate].
  injection H' as <-. eauto.
Qed.

(** The rows of the slices of one collection, for index lists that
    partition 0..n-1. *)
Lemma slices_keep_rows (data : ArrayLike A) (a : list (list Z)) n slices :
  NoDup (concat a) ->
  (forall i, In i (concat a) <-> 0 <= i < Z.of_nat n) ->
  mapM (slice_data data) a = Ok slices ->
  Permutation (concat (map rows_of slices)) (firstn n (rows_of data)).
Proof.
  intros Hnd Hrange Hm.
  assert (Hlist : forall xs,
            Forall2 (fun idx s =>
                       Ok (PyList (map snd (filter (fun '(i, _) => in_set i idx)
                                                   (enumerate xs)))) = Ok s)
                    a slices ->
            Permutation (concat (map rows_of slices)) (firstn n xs)).
  { intros xs HF.
    rewrite <- (list_slices_keep_rows xs a n Hnd Hrange).
    clear Hnd Hrange Hm.
    induction HF as [|idx s a slices Hs _ IH]; simpl; [constructor|].
    injection Hs as <-. simpl. now apply Permutation_app_head. }
  destruct data as [xs|xs|k rows|ty len];
    [simpl in Hm |- *..|simpl rows_of|simpl in Hm |- *].
  - apply Hlist, mapM_Forall2, Hm.
  - apply Hlist, mapM_Forall2, Hm.
  - assert (Hrows : concat (map rows_of slices) =
                    flat_map (fun i => match nth_error rows (Z.to_nat i) with
                                       | Some r => [r]
                                       | None => []
                                       end) (concat a)).
    { assert (Hnn : Forall (fun i => 0 <= i) (concat a)).
      { rewrite Forall_forall. intros i Hi. apply Hrange in Hi. lia. }
      clear Hnd Hrange Hlist. apply mapM_Forall2 in Hm.
      induction Hm as [|idx s a slices Hs _ IH]; [reflexivity|].
      simpl in Hnn. apply Forall_app in Hnn. destruct Hnn as [Hidx Ha].
      apply slice_data_array_inv in Hs. destruct Hs as (rs & Hrs & ->).
      simpl.
      rewrite flat_map_app, IH by exact Ha.
      now rewrite (mapM_array_getitem rows idx rs Hidx Hrs). }
    rewrite Hrows.
    assert (Hperm : Permutation (concat a) (arange n)).
    { apply NoDup_Permutation; auto using arange_NoDup.
      intros i. now rewrite Hrange, arange_In. }
    rewrite (Permutation_flat_map _ Hperm).
    unfold arange. now rewrite rows_at_arange.
  - destruct a as [|idx a]; simpl in Hm; [|discriminate].
    injection Hm as <-. simpl. now rewrite firstn_nil.
Qed.

End SlicesKeepRows.

Section SplitDataSlices.
Context {A : Type}.
Variables (rng seed_t : Type).
Variable random_seed : seed_t -> rng.
Variable random_shuffle : list Z -> rng -> list Z * rng.

Hypothesis random_shuffle_perm :
  forall l g, Permutation (fst (random_shuffle l g)) l.

(** A call with [index_only=False] that returns loses no sample and
    repeats none: for a specification without a negative entry, the
    slices of each input collection hold together the first [n] rows of
    the collection, each once ([n] being the length of the first
    collection). *)
Theorem split_data_slices_keep_rows (inputs : list (ArrayLike A)) n splits
    shuffle stratify_by seed g out g' :
  sample_count inputs = Ok n ->
  Forall nonneg_entry splits ->
  (forall labels, stratify_by = Some labels -> length labels = n) ->
  split_data random_seed random_shuffle inputs splits shuffle stratify_by
             false seed g = (Ok out, g') ->
  Forall2 (fun data data_splits =>
             Permutation (concat (map rows_of data_splits))
                         (firstn n (rows_of data)))
          inputs (slices_of out).
Proof.
  intros Hn Hnn Hlabels H.
  assert (Ha : exists a,
            split_data random_seed random_shuffle inputs splits shuffle
                       stratify_by true seed g = (Ok (Assignments a), g') /\
            mapM (fun data => mapM (slice_data data) a) inputs =
              Ok (slices_of out)).
  { rewrite split_data_unfold in H |- *. cbv zeta in H |- *.
    destruct (sample_count inputs) as [n'|]; [|discriminate].
    destruct (resolve_fracs splits _) as [fracs|]; [|discriminate].
    destruct (assign_pools _ _ _ _ _ _) as [[a|e] g1]; [|discriminate].
    destruct (mapM _ inputs) as [outputs|] eqn:Hm; [|discriminate].
    exists a. destruct outputs as [|o [|o' outputs]];
      injection H as <- <-; split; solve [reflexivity | exact Hm]. }
  destruct Ha as (a & Hidx & Hm).
  destruct (returned_assignments_partition rng seed_t random_seed
              random_shuffle random_shuffle_perm inputs n splits shuffle
              stratify_by seed g a g' Hn Hnn Hlabels Hidx)
    as (_ & _ & Hnd & Hrange).
  eapply Forall2_impl; [|exact (mapM_Forall2 _ _ _ Hm)].
  intros data data_splits Hd.
  now apply (slices_keep_rows data a n).
Qed.

End SplitDataSlices.

Lemma split_data_slices_keep_rows_witness :
  Forall2 (fun data data_splits =>
             Permutation (concat (map rows_of data_splits))
                         (firstn 5 (rows_of data)))
          [PyList [10; 11; 12; 13; 14];
           PyArray ndarray [20; 21; 22; 23; 24; 25]]
          (slices_of
             (PerInput
                [[PyList [10; 12; 14]; PyList [11; 13]];
                 [PyArray ndarray [20; 24; 22]; PyArray ndarray [23; 21]]])).
Proof.
  apply (split_data_slices_keep_rows Lcg.rng Z Lcg.seed Lcg.shuffle
           Lcg_shuffle_perm
           [PyList [10; 11; 12; 13; 14];
            PyArray ndarray [20; 21; 22; 23; 24; 25]]
           5 [PyInt 3; PyInt 2] true None (Some 1) 0 _ 2035015474).
  - reflexivity.
  - repeat constructor; simpl; lia.
  - discriminate.
  - vm_compute. reflexivity.
Defined.

Lemma split_data_slices_return_witness :
  exists out,
    split_data Lcg.seed Lcg.shuffle
      [PyList [10; 11; 12; 13; 14]; PyArray ndarray [20; 21; 22; 23; 24]]
      [PyInt 3; PyInt 2] true None false (Some 1) 0 = (Ok out, 2035015474).
Proof.
  apply (split_data_slices_return Lcg.rng Z Lcg.seed Lcg.shuffle
           Lcg_shuffle_perm
           [PyList [10; 11; 12; 13; 14]; PyArray ndarray [20; 21; 22; 23; 24]]
           5 [PyInt 3; PyInt 2] true None (Some 1) 0 [[0; 4; 2]; [3; 1]]).
  - reflexivity.
  - repeat constructor; simpl; lia.
  - discriminate.
  - repeat constructor.
  - vm_compute. reflexivity.
Defined.

(** ** Collections that cannot be sliced *)


Lemma mapM_app_raise {B C} (f : B -> result C) pre x post bs e :
  mapM f pre = Ok bs -> f x = Raise e ->
  mapM f (pre ++ x :: post) = Raise e.
Proof.
  revert bs. induction pre as [|b pre IH]; simpl; intros bs Hpre Hx.
  - now rewrite Hx.
  - destruct (f b) as [c|]; simpl in *; [|discriminate].
    destruct (mapM f pre) as [cs|]; simpl in *; [|discriminate].
    now rewrite (IH cs eq_refl Hx).
Qed.

Section SliceErrors.
Context {A : Type}.


(** A collection of an unsupported type is refused whatever the index
    list. *)
Lemma slice_data_unsupported (data : ArrayLike A) ty indices :
  unsupported_type data = Some ty ->
  slice_data data indices =
  Raise (Exception_
           ("split_data() currently only accepts inputs of type tuple, list, np.ndarray, scipy.sparse, or torch.Tensor; not "
              ++ ty)).
Proof.
  destruct data as [xs|xs|[|ty' [|]|] rows|ty' len]; simpl;
    try discriminate; now intros [= ->].
Qed.


End SliceErrors.

Section SplitDataSliceErrors.
Context {A : Type}.
Variables (rng seed_t : Type).
Variable random_seed : seed_t -> rng.
Variable random_shuffle : list Z -> rng -> list Z * rng.

Hypothesis random_shuffle_perm :
  forall l g, Permutation (fst (random_shuffle l g)) l.


(** A collection on which indexing with a list raises [TypeError] (a
    sparse matrix of a format without indexing, an object of another
    type) is reported by an [Exception] that names its type: only by a
    call with [index_only=False], and only once the index lists are
    computed and the collections before it are sliced. *)
Theorem split_data_unsupported_type (pre post : list (ArrayLike A)) data ty n
    splits shuffle stratify_by seed g a g' :
  unsupported_type data = Some ty ->
  sample_count (pre ++ data :: post) = Ok n ->
  Forall nonneg_entry splits ->
  (forall labels, stratify_by = Some labels -> length labels = n) ->
  splits <> [] ->
  Forall (sliceable n) pre ->
  split_data random_seed random_shuffle (pre ++ data :: post)
             splits shuffle stratify_by true seed g =
    (Ok (Assignments a), g') ->
  split_data random_seed random_shuffle (pre ++ data :: post)
             splits shuffle stratify_by false seed g =
    (Raise (Exception_
              ("split_data() currently only accepts inputs of type tuple, list, np.ndarray, scipy.sparse, or torch.Tensor; not "
                 ++ ty)), g').
Proof.
  intros Hu Hn Hnn Hlabels Hne Hpre H.
  destruct (returned_assignments_partition rng seed_t random_seed
              random_shuffle random_shuffle_perm _ n splits shuffle
              stratify_by seed g a g' Hn Hnn Hlabels H)
    as (Hlen & _ & _ & Hrange).
  rewrite split_data_unfold in H |- *. cbv zeta in H |- *.
  destruct (sample_count _) as [n'|]; [|discriminate].
  destruct (resolve_fracs splits _) as [fracs|]; [|discriminate].
  destruct (assign_pools _ _ _ _ _ _) as [[a0|e0] g1]; [|discriminate].
  injection H as -> ->.
  destruct (mapM_total (fun data => mapM (slice_data data) a) pre)
    as [outputs Ho].
  { eapply Forall_impl; [|exact Hpre]. intros d Hd.
    apply mapM_total. rewrite Forall_forall. intros idx Hidx.
    apply (slice_data_returns d n); auto.
    rewrite Forall_forall. intros i Hi. apply Hrange.
    apply in_concat. eauto. }
  rewrite (mapM_app_raise _ pre data post outputs
             (Exception_
                ("split_data() currently only accepts inputs of type tuple, list, np.ndarray, scipy.sparse, or torch.Tensor; not "
                   ++ ty)) Ho); [reflexivity|].
  destruct a as [|idx a]; [destruct splits; simpl in Hlen; congruence|].
  simpl. now rewrite (slice_data_unsupported data ty idx Hu).
Qed.

End SplitDataSliceErrors.


Lemma split_data_unsupported_type_witness :
  split_data Lcg.seed Lcg.shuffle
    ([PyArray tensor [10; 11; 12; 13; 14]] ++
     PyArray (spmatrix "<class 'scipy.sparse.coo.coo_matrix'>" false)
             [20; 21; 22; 23; 24] :: [PyList [30; 31; 32; 33; 34]])
    [PyInt 3; PyInt 2] true None false (Some 1) 0 =
  (Raise (Exception_
            ("split_data() currently only accepts inputs of type tuple, list, np.ndarray, scipy.sparse, or torch.Tensor; not "
               ++ "<class 'scipy.sparse.coo.coo_matrix'>")), 2035015474).
Proof.
  apply (split_data_unsupported_type Lcg.rng Z Lcg.seed Lcg.shuffle
           Lcg_shuffle_perm [PyArray tensor [10; 11; 12; 13; 14]]
           [PyList [30; 31; 32; 33; 34]]
           (PyArray (spmatrix "<class 'scipy.sparse.coo.coo_matrix'>" false)
                    [20; 21; 22; 23; 24])
           "<class 'scipy.sparse.coo.coo_matrix'>"
           5 [PyInt 3; PyInt 2] true None (Some 1) 0 [[0; 4; 2]; [3; 1]]).
  - reflexivity.
  - reflexivity.
  - repeat constructor; simpl; lia.
  - discriminate.
  - discriminate.
  - repeat constructor.
  - vm_compute. reflexivity.
Defined.

(** The same for an object of another type, here a dict. *)
Example split_data_unsupported_dict :
  split_data Lcg.seed Lcg.shuffle
    [PyList [10; 11; 12; 13; 14]; PyOther "<class 'dict'>" (Some 5%nat)]
    [PyInt 3; PyInt 2] true None false (Some 1) 0 =
  (Raise (Exception_
            ("split_data() currently only accepts inputs of type tuple, list, np.ndarray, scipy.sparse, or torch.Tensor; not "
               ++ "<class 'dict'>")), 2035015474).
Proof. vm_compute. reflexivity. Qed.

(** ** [DictDataset.__getitem__] and [__len__] *)

Section FieldsFacts.
Context {V : Type}.

Lemma array_getitem_raises (rows : list V) i e :
  array_getitem rows i = Raise e -> e = IndexError.
Proof.
  unfold array_getitem.
  destruct ((0 <=? _) && _); [destruct (nth_error _ _)|]; congruence.
Qed.

Lemma array_getitem_returns_iff (rows : list V) i :
  (exists r, array_getitem rows i = Ok r) <->
  - Z.of_nat (length rows) <= i < Z.of_nat (length rows).
Proof.
  unfold array_getitem.
  destruct (Z.ltb_spec i 0) as [Hneg|Hpos];
    (match goal with
     | |- context [(0 <=? ?j) && (?j <? ?len)] =>
         destruct (Z.leb_spec 0 j); destruct (Z.ltb_spec j len); simpl
     end;
     try (split; [intros [r Hr]; discriminate | lia]));
    (destruct (nth_error rows _) as [r|] eqn:Hr;
       [split; [lia | eauto]
       |apply nth_error_None in Hr; lia]).
Qed.

Lemma index_fields_raises (d : list (string * list V)) index e :
  index_fields d index = Raise e -> e = IndexError.
Proof.
  intros H. apply mapM_raises in H. destruct H as [[name feature] [_ H]].
  destruct (array_getitem feature index) as [v|e'] eqn:Hv; simpl in H;
    [discriminate|].
  injection H as <-. exact (array_getitem_raises feature index e' Hv).
Qed.

Lemma index_fields_returns (d : list (string * list V)) index :
  0 <= index ->
  Forall (fun f => index < Z.of_nat (length (snd f))) d ->
  exists items,
    index_fields d index = Ok items /\
    Forall2 (fun f item =>
               fst item = fst f /\
               nth_error (snd f) (Z.to_nat index) = Some (snd item))
            d items.
Proof.
  intros Hpos. unfold index_fields.
  induction 1 as [|[name feature] d Hf _ [items [Hitems HF]]]; simpl.
  - exists []. split; [reflexivity|constructor].
  - simpl in Hf.
    destruct (array_getitem_in_range feature index (conj Hpos Hf))
      as [v [Hv Hnth]].
    rewrite Hv, Hitems. simpl. exists ((name, v) :: items).
    split; [reflexivity|]. constructor; auto.
Qed.

Lemma index_fields_returns_iff (d : list (string * list V)) index :
  (exists items, index_fields d index = Ok items) <->
  Forall (fun f => - Z.of_nat (length (snd f)) <= index
                   < Z.of_nat (length (snd f))) d.
Proof.
  unfold index_fields. split.
  - intros [items H]. apply mapM_Forall2 in H.
    induction H as [|[name feature] item d items Hf _ IH]; constructor; auto.
    simpl. apply array_getitem_returns_iff.
    destruct (array_getitem feature index) as [v|]; [eauto|discriminate].
  - intros H. apply mapM_total.
    eapply Forall_impl; [|exact H]. intros [name feature] Hf. simpl in Hf.
    apply array_getitem_returns_iff in Hf. destruct Hf as [v Hv].
    rewrite Hv. simpl. eauto.
Qed.

(** [dataset[index]] for an index that is not negative and fits in a
    signed 64-bit integer: when every feature and every label has more
    than [index] items, the result has the keys of [X_dict] and of
    [Y_dict], in their order, each with the item at [index]; when one is
    too short, the call raises [IndexError] and gives no partial
    sample. *)
Theorem DictDataset_getitem_spec (X_dict Y_dict : list (string * list V))
    index :
  0 <= index < 2 ^ 63 ->
  (Forall (fun f => index < Z.of_nat (length (snd f))) (X_dict ++ Y_dict) ->
   exists x_dict y_dict,
     DictDataset_getitem X_dict Y_dict index = Ok (x_dict, y_dict) /\
     map fst x_dict = map fst X_dict /\
     map fst y_dict = map fst Y_dict /\
     Forall2 (fun f item =>
                nth_error (snd f) (Z.to_nat index) = Some (snd item))
             (X_dict ++ Y_dict) (x_dict ++ y_dict)) /\
  (Exists (fun f => Z.of_nat (length (snd f)) <= index) (X_dict ++ Y_dict) ->
   DictDataset_getitem X_dict Y_dict index = Raise IndexError).
Proof.
  intros [Hpos _]. split.
  - intros Hall. apply Forall_app in Hall. destruct Hall as [HX HY].
    destruct (index_fields_returns X_dict index Hpos HX) as [x [Hx HFx]].
    destruct (index_fields_returns Y_dict index Hpos HY) as [y [Hy HFy]].
    exists x, y. unfold DictDataset_getitem. rewrite Hx, Hy.
    split; [reflexivity|].
    assert (Hkeys : forall (d : list (string * list V)) items,
              Forall2 (fun f item =>
                         fst item = fst f /\
                         nth_error (snd f) (Z.to_nat index) = Some (snd item))
                      d items ->
              map fst items = map fst d).
    { induction 1 as [|f item d items [Hk _] _ IH]; simpl; congruence. }
    split; [now apply Hkeys|]. split; [now apply Hkeys|].
    apply Forall2_app; (eapply Forall2_impl; [|eassumption]);
      intros f item [_ H]; exact H.
  - intros Hex.
    destruct (DictDataset_getitem X_dict Y_dict index) as [[x y]|e] eqn:H.
    + exfalso. unfold DictDataset_getitem in H.
      destruct (index_fields X_dict index) as [x'|] eqn:Hx; simpl in H;
        [|discriminate].
      destruct (index_fields Y_dict index) as [y'|] eqn:Hy; simpl in H;
        [|discriminate].
      assert (HX : Forall (fun f => - Z.of_nat (length (snd f)) <= index
                                    < Z.of_nat (length (snd f))) X_dict)
        by (apply index_fields_returns_iff; eauto).
      assert (HY : Forall (fun f => - Z.of_nat (length (snd f)) <= index
                                    < Z.of_nat (length (snd f))) Y_dict)
        by (apply index_fields_returns_iff; eauto).
      apply Exists_exists in Hex. destruct Hex as [f [Hin Hf]].
      rewrite Forall_forall in HX, HY.
      apply in_app_or in Hin. destruct Hin as [Hin|Hin];
        [specialize (HX f Hin)|specialize (HY f Hin)]; lia.
    + f_equal. unfold DictDataset_getitem in H.
      destruct (index_fields X_dict index) as [x'|e'] eqn:Hx; simpl in H.
      * destruct (index_fields Y_dict index) as [y'|e''] eqn:Hy; simpl in H;
          [discriminate|].
        injection H as <-. exact (index_fields_raises _ _ _ Hy).
      * injection H as <-. exact (index_fields_raises _ _ _ Hx).
Qed.

(** When every feature and every label has the length of the first
    label, which is what [len(dataset)] returns, [dataset[index]], for
    an index that fits in a signed 64-bit integer, is defined exactly
    for the indices from [-len(dataset)] to [len(dataset) - 1], and
    raises [IndexError] for the others. *)
Theorem DictDataset_getitem_in_range (X_dict Y_dict : list (string * list V))
    index :
  - 2 ^ 63 <= index < 2 ^ 63 ->
  Y_dict <> [] ->
  Forall (fun f => length (snd f) = DictDataset_len Y_dict)
         (X_dict ++ Y_dict) ->
  ((exists sample, DictDataset_getitem X_dict Y_dict index = Ok sample) <->
   - Z.of_nat (DictDataset_len Y_dict) <= index
   < Z.of_nat (DictDataset_len Y_dict)) /\
  (forall e, DictDataset_getitem X_dict Y_dict index = Raise e ->
             e = IndexError).
Proof.
  intros _ Hne Hlen. split.
  - assert (Hiff : (exists sample,
                      DictDataset_getitem X_dict Y_dict index = Ok sample) <->
                   Forall (fun f => - Z.of_nat (length (snd f)) <= index
                                    < Z.of_nat (length (snd f)))
                          (X_dict ++ Y_dict)).
    { rewrite Forall_app, <- !index_fields_returns_iff.
      unfold DictDataset_getitem. split.
      - intros [[x y] H].
        destruct (index_fields X_dict index) as [x'|]; simpl in H;
          [|discriminate].
        destruct (index_fields Y_dict index) as [y'|]; simpl in H;
          [|discriminate].
        eauto.
      - intros [[x Hx] [y Hy]]. rewrite Hx, Hy. simpl. eauto. }
    rewrite Hiff. rewrite Forall_forall in Hlen. rewrite Forall_forall.
    split.
    + intros H. destruct Y_dict as [|f Y]; [congruence|].
      assert (Hin : In f (X_dict ++ f :: Y))
        by (apply in_or_app; right; left; reflexivity).
      specialize (H f Hin). rewrite (Hlen f Hin) in H. exact H.
    + intros H f Hin. now rewrite (Hlen f Hin).
  - intros e H. unfold DictDataset_getitem in H.
    destruct (index_fields X_dict index) as [x'|e'] eqn:Hx; simpl in H.
    + destruct (index_fields Y_dict index) as [y'|e''] eqn:Hy; simpl in H;
        [discriminate|].
      injection H as <-. exact (index_fields_raises _ _ _ Hy).
    + injection H as <-. exact (index_fields_raises _ _ _ Hx).
Qed.

End FieldsFacts.

Lemma DictDataset_getitem_spec_witness :
  (exists x_dict y_dict,
     DictDataset_getitem [("a"%string, [1; 2; 3]); ("b"%string, [4; 5; 6])]
                         [("task"%string, [7; 8; 9])] 1 =
       Ok (x_dict, y_dict) /\
     map fst x_dict = ["a"%string; "b"%string] /\
     map fst y_dict = ["task"%string] /\
     Forall2 (fun f item => nth_error (snd f) (Z.to_nat 1) = Some (snd item))
             ([("a"%string, [1; 2; 3]); ("b"%string, [4; 5; 6])] ++
              [("task"%string, [7; 8; 9])])
             (x_dict ++ y_dict)) /\
  DictDataset_getitem [("a"%string, [1; 2; 3]); ("b"%string, [4])]
                      [("task"%string, [7; 8; 9])] 1 = Raise IndexError.
Proof.
  split.
  - apply (proj1 (DictDataset_getitem_spec
                    [("a"%string, [1; 2; 3]); ("b"%string, [4; 5; 6])]
                    [("task"%string, [7; 8; 9])] 1 ltac:(lia))).
    repeat constructor.
  - apply (proj2 (DictDataset_getitem_spec
                    [("a"%string, [1; 2; 3]); ("b"%string, [4])]
                    [("task"%string, [7; 8; 9])] 1 ltac:(lia))).
    right. left. simpl. lia.
Defined.

Lemma DictDataset_getitem_in_range_witness :
  ((exists sample,
      DictDataset_getitem [("a"%string, [1; 2; 3])]
                          [("task"%string, [7; 8; 9])] (-3) = Ok sample) <->
   - Z.of_nat (DictDataset_len [("task"%string, [7; 8; 9])]) <= -3
   < Z.of_nat (DictDataset_len [("task"%string, [7; 8; 9])])) /\
  (forall e,
     DictDataset_getitem [("a"%string, [1; 2; 3])]
                         [("task"%string, [7; 8; 9])] (-3) = Raise e ->
     e = IndexError).
Proof.
  apply (DictDataset_getitem_in_range [("a"%string, [1; 2; 3])]
           [("task"%string, [7; 8; 9])] (-3)).
  - lia.
  - discriminate.
  - repeat constructor.
Defined.

(** ** Stratification shuffles every pool *)


Section StratifiedShuffle.
Context {A : Type}.
Variables (rng seed_t : Type).
Variable random_seed : seed_t -> rng.
Variable random_shuffle : list Z -> rng -> list Z * rng.



End StratifiedShuffle.


(** ** [collate_dicts] *)

Lemma Forall2_In_right {B C} (R : B -> C -> Prop) l l' y :
  Forall2 R l l' -> In y l' -> exists x, In x l /\ R x y.
Proof.
  induction 1 as [|b c l l' Hbc _ IH]; simpl; [contradiction|].
  intros [->|Hin]; [eauto|].
  destruct (IH Hin) as [x [Hx Hxy]]. eauto.
Qed.

Section CollateFacts.
Context {T O M : Type}.
Variable list_to_tensor : list (pyvalue T O) -> result M.

Lemma list_append_group (d : list (string * list (pyvalue T O))) name v :
  list_append d name v = group_append String.eqb d name v.
Proof.
  induction d as [|[k vs] d IH]; simpl; [reflexivity|].
  destruct (String.eqb k name); [reflexivity|]. now rewrite IH.
Qed.

Lemma append_items_group (sample : list (string * pyvalue T O)) : forall d,
  append_items d sample =
  fold_left (fun d '(key, w) => group_append String.eqb d key w) sample d.
Proof.
  unfold append_items.
  induction sample as [|[name v] sample IH]; intros d; simpl; [reflexivity|].
  now rewrite IH, list_append_group.
Qed.

Lemma gather_batch_from
    (batch : list (list (string * pyvalue T O) * list (string * pyvalue T O))) :
  forall dx dy,
  fold_left (fun '(X_batch, Y_batch) '(x_dict, y_dict) =>
               (append_items X_batch x_dict, append_items Y_batch y_dict))
            batch (dx, dy) =
  (fold_left (fun d '(key, w) => group_append String.eqb d key w)
             (batch_features batch) dx,
   fold_left (fun d '(key, w) => group_append String.eqb d key w)
             (batch_labels batch) dy).
Proof.
  unfold batch_features, batch_labels.
  induction batch as [|[x y] batch IH]; intros dx dy; simpl; [reflexivity|].
  now rewrite IH, !fold_left_app, !append_items_group.
Qed.

(** The two loops over the batch group the values by field name: the
    names in the order in which the batch first shows them, each with
    its values in the order of the samples. *)
Lemma gather_batch_groups
    (batch : list (list (string * pyvalue T O) * list (string * pyvalue T O))) :
  gather_batch batch =
  (map (fun name => (name, values_of String.eqb name (batch_features batch)))
       (first_seen String.eqb (map fst (batch_features batch))),
   map (fun name => (name, values_of String.eqb name (batch_labels batch)))
       (first_seen String.eqb (map fst (batch_labels batch)))).
Proof.
  unfold gather_batch. rewrite gather_batch_from.
  now rewrite !(group_fold String.eqb String.eqb_eq).
Qed.


(** What [collate_dicts] returns: one entry per feature name and per
    label name, in the order in which the batch first shows the names;
    the values of a name are those of the samples that have it, in the
    order of the samples; a label is [list_to_tensor] of its values, and
    so is a feature whose first value is a tensor, while another feature
    is left as the list of its values. *)
Theorem collate_dicts_groups_by_name
    (batch : list (list (string * pyvalue T O) * list (string * pyvalue T O)))
    X_batch Y_batch :
  collate_dicts list_to_tensor batch = Ok (X_batch, Y_batch) ->
  map fst X_batch = first_seen String.eqb (map fst (batch_features batch)) /\
  map fst Y_batch = first_seen String.eqb (map fst (batch_labels batch)) /\
  (forall name c, In (name, c) X_batch ->
     match c with
     | Merged m =>
         (exists t rest,
            values_of String.eqb name (batch_features batch) =
              TensorV t :: rest) /\
         list_to_tensor (values_of String.eqb name (batch_features batch)) =
           Ok m
     | Listed values =>
         values = values_of String.eqb name (batch_features batch) /\
         exists o rest, values = OtherV o :: rest
     end) /\
  (forall name m, In (name, m) Y_batch ->
     list_to_tensor (values_of String.eqb name (batch_labels batch)) = Ok m).
Proof.
  unfold collate_dicts. rewrite gather_batch_groups.
  destruct (mapM _ (map _ (first_seen _ (map fst (batch_features batch)))))
    as [X|] eqn:HX; simpl; [|discriminate].
  destruct (mapM _ (map _ (first_seen _ (map fst (batch_labels batch)))))
    as [Y|] eqn:HY; simpl; [|discriminate].
  intros [= <- <-].
  apply mapM_Forall2 in HX. apply mapM_Forall2 in HY.
  assert (Hkeys : forall (B C : Type) (f : string * B -> result (string * C))
                         (d : list (string * B)) items,
            (forall name b item, f (name, b) = Ok item -> fst item = name) ->
            Forall2 (fun p item => f p = Ok item) d items ->
            map fst items = map fst d).
  { intros B C f d items Hf. induction 1 as [|[k b] item d items Hk _ IH];
      simpl; [reflexivity|].
    now rewrite IH, (Hf k b item Hk). }
  split; [|split; [|split]].
  - match type of HX with
    | Forall2 _ ?d _ => transitivity (map fst d)
    end.
    + eapply Hkeys; [|exact HX]. intros name b item H. simpl in H.
      destruct (merge_feature list_to_tensor b); simpl in H; [|discriminate].
      now injection H as <-.
    + rewrite map_map. simpl. apply map_id.
  - match type of HY with
    | Forall2 _ ?d _ => transitivity (map fst d)
    end.
    + eapply Hkeys; [|exact HY]. intros name b item H. simpl in H.
      destruct (list_to_tensor b); simpl in H; [|discriminate].
      now injection H as <-.
    + rewrite map_map. simpl. apply map_id.
  - intros name c Hin.
    destruct (Forall2_In_right _ _ _ _ HX Hin) as [[k values] [Hk Hc]].
    apply in_map_iff in Hk. destruct Hk as [k' [[= -> <-] _]].
    destruct (merge_feature list_to_tensor _) as [c'|] eqn:Hm; simpl in Hc;
      [|discriminate].
    injection Hc as <- <-. unfold merge_feature in Hm.
    destruct (values_of String.eqb k (batch_features batch))
      as [|[t|o] rest]; [discriminate| |].
    + destruct (list_to_tensor _) as [m|] eqn:Hl; simpl in Hm;
        [|discriminate].
      injection Hm as <-. eauto.
    + injection Hm as <-. eauto.
  - intros name m Hin.
    destruct (Forall2_In_right _ _ _ _ HY Hin) as [[k values] [Hk Hc]].
    apply in_map_iff in Hk. destruct Hk as [k' [[= -> <-] _]].
    destruct (list_to_tensor (values_of String.eqb k (batch_labels batch)))
      as [m'|] eqn:Hl; simpl in Hc; [|discriminate].
    injection Hc as <- <-. exact Hl.
Qed.


End CollateFacts.

Lemma collate_dicts_groups_by_name_witness :
  map fst [("x"%string, @Merged (list Z) string (list (list Z))
                                [[1; 2]; [3; 4]]);
           ("id"%string, Listed [OtherV "a"%string; OtherV "b"%string])] =
    first_seen String.eqb (map fst (batch_features a_batch)) /\
  map fst [("y"%string, [[0]; [1]])] =
    first_seen String.eqb (map fst (batch_labels a_batch)) /\
  (forall name c,
     In (name, c)
        [("x"%string, Merged [[1; 2]; [3; 4]]);
         ("id"%string, Listed [OtherV "a"%string; OtherV "b"%string])] ->
     match c with
     | Merged m =>
         (exists t rest,
            values_of String.eqb name (batch_features a_batch) =
              TensorV t :: rest) /\
         stack_tensors (values_of String.eqb name (batch_features a_batch)) =
           Ok m
     | Listed values =>
         values = values_of String.eqb name (batch_features a_batch) /\
         exists o rest, values = OtherV o :: rest
     end) /\
  (forall name m, In (name, m) [("y"%string, [[0]; [1]])] ->
     stack_tensors (values_of String.eqb name (batch_labels a_batch)) = Ok m).
Proof.
  apply (collate_dicts_groups_by_name stack_tensors a_batch).
  reflexivity.
Defined.


(** ** Batches of samples of a dataset *)

Section GroupingAligned.
Context {K W : Type}.
Variable eqb : K -> K -> bool.
Hypothesis eqb_eq : forall a b, eqb a b = true <-> a = b.

Lemma eqb_neq_false a b : a <> b -> eqb a b = false.
Proof.
  intros Hne. destruct (eqb a b) eqn:H; [|reflexivity].
  apply eqb_eq in H. contradiction.
Qed.

Lemma group_append_absent (d : list (K * list W)) key w :
  ~ In key (map fst d) -> group_append eqb d key w = d ++ [(key, [w])].
Proof.
  induction d as [|[k ws] d IH]; simpl; intros Hnin; [reflexivity|].
  rewrite eqb_neq_false by tauto. now rewrite IH by tauto.
Qed.

Lemma fold_group_append_head k ws (sample : list (K * W)) : forall d,
  ~ In k (map fst sample) ->
  fold_left (fun d '(key, w) => group_append eqb d key w) sample
            ((k, ws) :: d) =
  (k, ws) :: fold_left (fun d '(key, w) => group_append eqb d key w) sample d.
Proof.
  induction sample as [|[key w] sample IH]; simpl; intros d Hnin;
    [reflexivity|].
  rewrite eqb_neq_false by (intros E; apply Hnin; left; congruence).
  apply IH. tauto.
Qed.

(** A sample with the keys of the dict, in their order, adds one value
    to each key. *)
Lemma fold_group_append_aligned (d : list (K * list W)) :
  forall sample : list (K * W),
  NoDup (map fst d) -> map fst sample = map fst d ->
  fold_left (fun d '(key, w) => group_append eqb d key w) sample d =
  map (fun '((k, ws), (_, w)) => (k, ws ++ [w])) (combine d sample).
Proof.
  induction d as [|[k ws] d IH]; intros [|[key w] sample]; simpl;
    try discriminate; [reflexivity|].
  intros Hnd [= -> Hkeys]. inversion Hnd as [|? ? Hk Hnd']; subst.
  rewrite (proj2 (eqb_eq k k) eq_refl).
  rewrite fold_group_append_head by now rewrite Hkeys.
  f_equal. now apply IH.
Qed.

(** The first sample gives the dict its keys. *)
Lemma fold_group_append_fresh (sample : list (K * W)) : forall d,
  NoDup (map fst sample) ->
  (forall k, In k (map fst sample) -> ~ In k (map fst d)) ->
  fold_left (fun d '(key, w) => group_append eqb d key w) sample d =
  d ++ map (fun '(k, w) => (k, [w])) sample.
Proof.
  induction sample as [|[key w] sample IH]; simpl; intros d Hnd Hfresh.
  - now rewrite app_nil_r.
  - inversion Hnd as [|? ? Hk Hnd']; subst.
    rewrite group_append_absent by (apply Hfresh; now left).
    rewrite IH; auto.
    + now rewrite <- app_assoc.
    + intros k Hin. rewrite map_app, in_app_iff. simpl.
      intros [Hd|[->|[]]]; [|contradiction].
      exact (Hfresh k (or_intror Hin) Hd).
Qed.

End GroupingAligned.

Lemma Forall2_compose {B C D} (R : B -> C -> Prop) (S : C -> D -> Prop)
    l1 l2 l3 :
  Forall2 R l1 l2 -> Forall2 S l2 l3 ->
  Forall2 (fun b d => exists c, R b c /\ S c d) l1 l3.
Proof.
  intros H. revert l3.
  induction H as [|b c l1 l2 Hbc _ IH]; intros l3 H';
    inversion H' as [|? d ? l3' Hcd Htl]; subst; constructor; eauto.
Qed.

Lemma mapM_snoc {B C} (f : B -> result C) l x vs v :
  mapM f l = Ok vs -> f x = Ok v -> mapM f (l ++ [x]) = Ok (vs ++ [v]).
Proof.
  revert vs. induction l as [|b l IH]; simpl; intros vs Hl Hx.
  - injection Hl as <-. now rewrite Hx.
  - destruct (f b) as [c|]; simpl in *; [|discriminate].
    destruct (mapM f l) as [cs|]; simpl in *; [|discriminate].
    injection Hl as <-. now rewrite (IH cs eq_refl Hx).
Qed.

Section BatchOfSamples.
Context {T O M : Type}.
Variable list_to_tensor : list (pyvalue T O) -> result M.

Lemma index_fields_Forall2 (D : list (string * list (pyvalue T O))) i sample :
  index_fields D i = Ok sample ->
  Forall2 (fun f item => fst item = fst f /\
                         array_getitem (snd f) i = Ok (snd item)) D sample.
Proof.
  intros H. apply mapM_Forall2 in H.
  eapply Forall2_impl; [|exact H]. intros [name feature] item Hi. simpl in *.
  destruct (array_getitem feature i) as [v|]; simpl in Hi; [|discriminate].
  injection Hi as <-. auto.
Qed.

Lemma index_fields_keys (D : list (string * list (pyvalue T O))) i sample :
  index_fields D i = Ok sample -> map fst sample = map fst D.
Proof.
  intros H. apply index_fields_Forall2 in H.
  induction H as [|f item D sample [Hk _] _ IH]; simpl; congruence.
Qed.

Lemma gathered_keys l (D d : list (string * list (pyvalue T O))) :
  gathered l D d -> map fst d = map fst D.
Proof. induction 1 as [|f g D d [Hk _] _ IH]; simpl; congruence. Qed.

Lemma gathered_first (D : list (string * list (pyvalue T O))) i sample :
  NoDup (map fst D) ->
  index_fields D i = Ok sample ->
  gathered [i] D (append_items [] sample).
Proof.
  intros Hnd H. pose proof (index_fields_keys D i sample H) as Hkeys.
  apply index_fields_Forall2 in H.
  rewrite append_items_group.
  rewrite (fold_group_append_fresh String.eqb String.eqb_eq)
    by (rewrite ?Hkeys; auto).
  simpl. clear Hnd Hkeys.
  induction H as [|f [k v] D sample [Hk Hv] _ IH]; simpl; constructor; auto.
  simpl in *. split; [exact Hk|]. now rewrite Hv.
Qed.

Lemma gathered_next (D : list (string * list (pyvalue T O))) l d i sample :
  NoDup (map fst D) ->
  gathered l D d ->
  index_fields D i = Ok sample ->
  gathered (l ++ [i]) D (append_items d sample).
Proof.
  intros Hnd Hd H. pose proof (index_fields_keys D i sample H) as Hkeys.
  apply index_fields_Forall2 in H.
  pose proof (gathered_keys l D d Hd) as Hdk.
  rewrite append_items_group.
  rewrite (fold_group_append_aligned String.eqb String.eqb_eq)
    by (rewrite ?Hdk; auto; congruence).
  clear Hnd Hkeys Hdk. revert sample H.
  induction Hd as [|f [k vs] D d [Hk Hvs] _ IH]; intros sample H;
    inversion H as [|? [k' v] ? sample' [Hk' Hv] H']; subst; simpl;
    constructor; [|now apply IH].
  simpl in *. split; [exact Hk|].
  now apply mapM_snoc.
Qed.

Lemma gather_batch_gathered (X_dict Y_dict : list (string * list (pyvalue T O)))
    l1 batch :
  NoDup (map fst X_dict) -> NoDup (map fst Y_dict) ->
  Forall2 (fun i sample => DictDataset_getitem X_dict Y_dict i = Ok sample)
          l1 batch ->
  forall l0 dx dy,
  gathered l0 X_dict dx -> gathered l0 Y_dict dy ->
  gathered (l0 ++ l1) X_dict
    (fst (fold_left (fun '(X_batch, Y_batch) '(x_dict, y_dict) =>
                       (append_items X_batch x_dict,
                        append_items Y_batch y_dict))
                    batch (dx, dy))) /\
  gathered (l0 ++ l1) Y_dict
    (snd (fold_left (fun '(X_batch, Y_batch) '(x_dict, y_dict) =>
                       (append_items X_batch x_dict,
                        append_items Y_batch y_dict))
                    batch (dx, dy))).
Proof.
  intros HX HY. induction 1 as [|i [x y] l1 batch Hs _ IH];
    intros l0 dx dy Hdx Hdy; simpl.
  - rewrite app_nil_r. auto.
  - unfold DictDataset_getitem in Hs.
    destruct (index_fields X_dict i) as [x'|] eqn:Hx; simpl in Hs;
      [|discriminate].
    destruct (index_fields Y_dict i) as [y'|] eqn:Hy; simpl in Hs;
      [|discriminate].
    injection Hs as <- <-.
    replace (l0 ++ i :: l1) with ((l0 ++ [i]) ++ l1)
      by now rewrite <- app_assoc.
    apply IH; now apply gathered_next.
Qed.

(** A batch of the samples [dataset[i]] of a dataset whose dicts have
    distinct names, for the indices of a non-empty list (each fitting
    in a signed 64-bit integer), collated: the result has the names of [X_dict]
    and of [Y_dict], in their order; a label is [list_to_tensor] of the
    items of the label at the indices, in the order of the indices, and a
    feature is what lines 80-81 make of its items at the indices. *)
Theorem collate_dicts_of_samples
    (X_dict Y_dict : list (string * list (pyvalue T O))) indices batch
    X_batch Y_batch :
  NoDup (map fst X_dict) -> NoDup (map fst Y_dict) ->
  indices <> [] ->
  Forall (fun i => - 2 ^ 63 <= i < 2 ^ 63) indices ->
  mapM (DictDataset_getitem X_dict Y_dict) indices = Ok batch ->
  collate_dicts list_to_tensor batch = Ok (X_batch, Y_batch) ->
  Forall2 (fun f entry =>
             fst entry = fst f /\
             exists values,
               mapM (array_getitem (snd f)) indices = Ok values /\
               merge_feature list_to_tensor values = Ok (snd entry))
          X_dict X_batch /\
  Forall2 (fun f entry =>
             fst entry = fst f /\
             exists values,
               mapM (array_getitem (snd f)) indices = Ok values /\
               list_to_tensor values = Ok (snd entry))
          Y_dict Y_batch.
Proof.
  intros HX HY Hne _ Hb Hc. apply mapM_Forall2 in Hb.
  destruct Hb as [|i [x y] l1 batch Hs Hb]; [congruence|].
  unfold DictDataset_getitem in Hs.
  destruct (index_fields X_dict i) as [x'|] eqn:Hx; simpl in Hs;
    [|discriminate].
  destruct (index_fields Y_dict i) as [y'|] eqn:Hy; simpl in Hs;
    [|discriminate].
  injection Hs as <- <-.
  destruct (gather_batch_gathered X_dict Y_dict l1 batch HX HY Hb [i]
              (append_items [] x') (append_items [] y')
              (gathered_first X_dict i x' HX Hx)
              (gathered_first Y_dict i y' HY Hy)) as [HGX HGY].
  unfold collate_dicts, gather_batch in Hc. simpl fold_left in Hc.
  simpl app in HGX, HGY.
  destruct (fold_left _ batch _) as [GX GY]. simpl in HGX, HGY.
  destruct (mapM _ GX) as [Xb|] eqn:HXb; simpl in Hc; [|discriminate].
  destruct (mapM _ GY) as [Yb|] eqn:HYb; simpl in Hc; [|discriminate].
  injection Hc as <- <-.
  apply mapM_Forall2 in HXb. apply mapM_Forall2 in HYb.
  unfold gathered in HGX, HGY. split.
  - eapply Forall2_impl; [|exact (Forall2_compose _ _ _ _ _ HGX HXb)].
    intros f entry ([k vs] & [Hk Hvs] & He). simpl in *.
    destruct (merge_feature list_to_tensor vs) as [c|] eqn:Hm; simpl in He;
      [|discriminate].
    injection He as <-. simpl. eauto.
  - eapply Forall2_impl; [|exact (Forall2_compose _ _ _ _ _ HGY HYb)].
    intros f entry ([k vs] & [Hk Hvs] & He). simpl in *.
    destruct (list_to_tensor vs) as [m|] eqn:Hm; simpl in He;
      [|discriminate].
    injection He as <-. simpl. eauto.
Qed.

End BatchOfSamples.

Lemma collate_dicts_of_samples_witness :
  Forall2 (fun f entry =>
             fst entry = fst f /\
             exists values,
               mapM (array_getitem (snd f)) [2; 0] = Ok values /\
               merge_feature stack_tensors values = Ok (snd entry))
          some_features
          [("x"%string, Merged [[5; 6]; [1; 2]]);
           ("id"%string, Listed [OtherV "c"%string; OtherV "a"%string])] /\
  Forall2 (fun f entry =>
             fst entry = fst f /\
             exists values,
               mapM (array_getitem (snd f)) [2; 0] = Ok values /\
               stack_tensors values = Ok (snd entry))
          some_labels [("y"%string, [[2]; [0]])].
Proof.
  apply (collate_dicts_of_samples stack_tensors some_features some_labels
           [2; 0]
           [([("x"%string, TensorV [5; 6]); ("id"%string, OtherV "c"%string)],
             [("y"%string, TensorV [2])]);
            ([("x"%string, TensorV [1; 2]); ("id"%string, OtherV "a"%string)],
             [("y"%string, TensorV [0])])]).
  - repeat constructor; simpl; intuition discriminate.
  - repeat constructor; simpl; intuition discriminate.
  - discriminate.
  - repeat constructor; lia.
  - reflexivity.
  - reflexivity.
Defined.
